(** * Google-Form autofill: schema extraction, normalisation and answer resolution

    A shallow embedding of [form.py]: the extraction of the script-embedded
    array ([extract_script_variables]), the walk of the positional dump into
    field descriptors ([parse_form_entries], [parse_entry]), the comparison
    normalisation ([normalize_text]) and the answer resolver
    ([fill_form_entries]), with Python's dynamic behaviour (truthiness,
    indexing errors, in-place list mutation during iteration) written out;
    then the response URL and the request ([get_form_response_url],
    [get_form_submit_request]) and, of [ggg.py], the fill strategy
    [fill_with_json_values], [generate_request_body], the reading of the
    model's answer in [call_gpt4] and the batch loop of [fill_with_llm]. *)

From Stdlib Require Import ZArith NArith QArith List String Ascii Lia DecimalString.
From stdpp Require Import base tactics option list.

Close Scope Q_scope.
Set Warnings "-register-all".
Local Open Scope list_scope.

(** ** Python values *)

(** A Python [str] is a sequence of Unicode code points. *)
Definition text := list N.

(** [py "abc"] is the Python string literal with the same ASCII characters. *)
Definition py (s : string) : text :=
  map (fun a => N_of_ascii a) (list_ascii_of_string s).

(** A Python [float] as [json.loads] produces them. *)
Inductive pyfloat :=
| FNan
| FInf (negative : bool)
| FFinite (q : Q).

(** The values [json.loads] can return and the values that appear in the
    descriptor dictionaries. *)
Inductive value :=
| VNone
| VBool (b : bool)
| VInt (z : Z)
| VFloat (f : pyfloat)
| VStr (s : text)
| VList (l : list value)
| VDict (d : list (text * value)).

(** The exceptions that leave a function: the built-in ones, and the
    [RequestException] of [requests] (connection error, timeout, bad URL). *)
Inductive exn :=
| TypeError | IndexError | KeyError | ValueError | RecursionError | RequestException.

Inductive result (A : Type) :=
| Ok (a : A)
| Raise (e : exn).
Arguments Ok {A} a.
Arguments Raise {A} e.

(** What the code prints; the formatted arguments are kept as data. *)
Inductive msg :=
| MsgJsonError (e : text)               (* "Error decoding JSON: {e}" *)
| MsgFetchError (status : Z)            (* "Error! Can't get form data" *)
| MsgNoEntries                          (* "Error! Can't get form entries. Login may be required." *)
| MsgNotIterable (entry : value)        (* "Warning: entry[4] is not iterable for entry: {entry}" *)
| MsgComparing (selected : text) (options : list text). (* "Comparing: ... against options: ..." *)

(** ** The monad of the embedding: printed lines and a result or an exception *)

Definition M (A : Type) : Type := (list msg * result A)%type.

Definition ret {A} (a : A) : M A := ([], Ok a).
Definition raise {A} (e : exn) : M A := ([], Raise e).
Definition print (m : msg) : M unit := ([m], Ok tt).

Definition bind {A B} (m : M A) (k : A -> M B) : M B :=
  match m with
  | (l, Ok a) => let '(l', r) := k a in (l ++ l', r)
  | (l, Raise e) => (l, Raise e)
  end.

Declare Scope py_scope.
Delimit Scope py_scope with py.
Notation "x <- m ;; k" := (bind m (fun x => k))
  (at level 100, m at next level, right associativity) : py_scope.
Notation "m ;;; k" := (bind m (fun _ => k))
  (at level 100, right associativity) : py_scope.
Local Open Scope py_scope.

Fixpoint mapM {A B} (f : A -> M B) (l : list A) : M (list B) :=
  match l with
  | [] => ret []
  | x :: l' => y <- f x ;; ys <- mapM f l' ;; ret (y :: ys)
  end.

(** ** Python's primitive operations on values *)

Definition float_truthy (f : pyfloat) : bool :=
  match f with
  | FFinite q => negb (Qeq_bool q 0)
  | _ => true
  end.

(** [bool(v)] *)
Definition truthy (v : value) : bool :=
  match v with
  | VNone => false
  | VBool b => b
  | VInt z => negb (z =? 0)%Z
  | VFloat f => float_truthy f
  | VStr s => match s with [] => false | _ => true end
  | VList l => match l with [] => false | _ => true end
  | VDict d => match d with [] => false | _ => true end
  end.

(** [v[i]] for a literal index [i >= 0]. The keys of a decoded JSON object are
    strings, so an integer key is never found. *)
Definition getitem (v : value) (i : nat) : M value :=
  match v with
  | VList l => match l !! i with Some x => ret x | None => raise IndexError end
  | VStr s => match s !! i with Some c => ret (VStr [c]) | None => raise IndexError end
  | VDict _ => raise KeyError
  | _ => raise TypeError
  end.

(** [v == k] for an integer literal [k] *)
Definition eq_int (v : value) (k : Z) : bool :=
  match v with
  | VInt z => (z =? k)%Z
  | VBool b => ((if b then 1 else 0) =? k)%Z
  | VFloat (FFinite q) => Qeq_bool q (inject_Z k)
  | _ => false
  end.

(** [v > k] for an integer literal [k] *)
Definition gt_int (v : value) (k : Z) : M bool :=
  match v with
  | VInt z => ret (k <? z)%Z
  | VBool b => ret (k <? (if b then 1 else 0))%Z
  | VFloat (FFinite q) => ret (negb (Qle_bool q (inject_Z k)))
  | VFloat (FInf negative) => ret (negb negative)
  | VFloat FNan => ret false
  | _ => raise TypeError
  end.

(** The items a [for] loop or a comprehension sees. *)
Definition iter (v : value) : M (list value) :=
  match v with
  | VList l => ret l
  | VStr s => ret (map (fun c => VStr [c]) s)
  | VDict d => ret (map (fun kv => VStr (fst kv)) d)
  | _ => raise TypeError
  end.

(** [len(v)] *)
Definition len (v : value) : M nat :=
  match v with
  | VList l => ret (length l)
  | VStr s => ret (length s)
  | VDict d => ret (length d)
  | _ => raise TypeError
  end.

Definition isinstance_list (v : value) : bool :=
  match v with VList _ => true | _ => false end.

Definition as_str (v : value) : M text :=
  match v with VStr s => ret s | _ => raise TypeError end.

Fixpoint join (sep : text) (l : list text) : text :=
  match l with
  | [] => []
  | [s] => s
  | s :: l' => s ++ sep ++ join sep l'
  end.

(** [sep.join(v)] *)
Definition str_join (sep : text) (v : value) : M text :=
  items <- iter v ;; strs <- mapM as_str items ;; ret (join sep strs).

(** [str(n)] for an integer *)
Definition str_of_Z (z : Z) : text := py (NilZero.string_of_int (Z.to_int z)).

(** ** Library functions outside the repository

    [unicodedata.normalize('NFKD', _)], [json.loads] and [repr] are
    CPython's; the development is parametric in them. *)

(** How [json.loads] ends on a [str]: the decoded value, a [JSONDecodeError]
    with its message, or another exception, which [except
    json.JSONDecodeError] does not catch: ValueError for an integer of more
    digits than [sys.get_int_max_str_digits()], RecursionError for arrays
    nested too deep. *)
Inductive loaded :=
| Loaded (v : value)
| JSONDecodeError (e : text)
| LoadRaises (e : exn).

Class Library := {
  nfkd : text -> text;
  json_loads : text -> loaded;
  repr : value -> text
}.

(** ** Constants *)

Definition ALL_DATA_FIELDS : text := py "FB_PUBLIC_LOAD_DATA_".
Definition FORM_SESSION_TYPE_ID : Z := 8.
Definition ANY_TEXT_FIELD : text := py "ANY TEXT!!".

(** ** Schema extractor *)

(** The characters [\s] matches in a [str] pattern, which are also the ones
    [str.strip()] removes. *)
Definition is_space (c : N) : bool :=
  (((9 <=? c) && (c <=? 13)) || ((28 <=? c) && (c <=? 32)) || (c =? 133)
   || (c =? 160) || (c =? 5760) || ((8192 <=? c) && (c <=? 8202))
   || (c =? 8232) || (c =? 8233) || (c =? 8239) || (c =? 8287) || (c =? 12288))%N.

Fixpoint strip_prefix (p s : text) : option text :=
  match p, s with
  | [], _ => Some s
  | a :: p', b :: s' => if (a =? b)%N then strip_prefix p' s' else None
  | _ :: _, [] => None
  end.

(** [\s*] in front of a character that is not white space *)
Fixpoint skip_spaces (s : text) : text :=
  match s with
  | c :: s' => if is_space c then skip_spaces s' else s
  | [] => []
  end.

(** [.*?\];] under DOTALL: the shortest text in front of "];" *)
Fixpoint until_close (s : text) : option text :=
  match s with
  | c :: s' =>
      match strip_prefix (py "];") s with
      | Some _ => Some []
      | None => cons c <$> until_close s'
      end
  | [] => None
  end.

(** The pattern [var\s<name>\s*=\s*(\[.*?\]);] matched at the head of [s];
    the result is group 1. *)
Definition match_here (name s : text) : option text :=
  s1 ← strip_prefix (py "var") s;
  match s1 with
  | c :: s2 =>
      if is_space c then
        s3 ← strip_prefix name s2;
        match skip_spaces s3 with
        | 61 :: s4 =>
            match skip_spaces s4 with
            | 91 :: s5 => body ← until_close s5; Some (91 :: body ++ [93])
            | _ => None
            end
        | _ => None
        end
      else None
  | [] => None
  end%N.

(** [pattern.search(html)]: the match at the leftmost position that has one *)
Fixpoint regex_search (name html : text) : option text :=
  match match_here name html with
  | Some g => Some g
  | None =>
      match html with
      | [] => None
      | _ :: html' => regex_search name html'
      end
  end.

(** How [requests.get] ends: a response with its status code and text, or
    an exception of [requests] (there is no [try] around the call). *)
Inductive fetched_page :=
| Response (status_code : Z) (body : text)
| RequestRaises.

Section WithLibrary.
Context `{Library}.

Definition extract_script_variables (name html : text) : M value :=
  match regex_search name html with
  | None => ret VNone
  | Some value_str =>
      match json_loads value_str with
      | Loaded v => ret v
      | JSONDecodeError e => print (MsgJsonError e) ;;; ret VNone
      | LoadRaises e => raise e
      end
  end.

(** [fetched] is how [requests.get(url, timeout=10)] ended. *)
Definition get_fb_public_load_data (fetched : fetched_page) : M value :=
  match fetched with
  | RequestRaises => raise RequestException
  | Response status_code body =>
      if negb (status_code =? 200)%Z then
        print (MsgFetchError status_code) ;;; ret VNone
      else extract_script_variables ALL_DATA_FIELDS body
  end.

End WithLibrary.

(** ** Field descriptors

    The dictionaries of the source; a key a dictionary may lack is an
    [option]: [None] is the absent key. *)
Record descriptor := {
  d_id : value;                       (* "id" *)
  d_container_name : value;           (* "container_name" *)
  d_type : value;                     (* "type" *)
  d_required : value;                 (* "required" *)
  d_name : option value;              (* "name" *)
  d_options : option value;           (* "options" *)
  d_default_value : option value      (* "default_value" *)
}.

(** ** Schema normaliser *)

Definition parse_sub_entry (entry_name entry_type_id sub_entry : value) : M descriptor :=
  i <- getitem sub_entry 0 ;;
  r <- getitem sub_entry 2 ;;
  n <- len sub_entry ;;
  nm <- (if (3 <? n)%nat then
           s3 <- getitem sub_entry 3 ;;
           if truthy s3 then t <- str_join (py " - ") s3 ;; ret (VStr t)
           else ret VNone
         else ret VNone) ;;
  s1 <- getitem sub_entry 1 ;;
  opts <- (if truthy s1 then
             xs <- iter s1 ;;
             os <- mapM (fun x => x0 <- getitem x 0 ;;
                                  ret (if truthy x0 then x0 else VStr ANY_TEXT_FIELD)) xs ;;
             ret (VList os)
           else ret VNone) ;;
  ret {| d_id := i; d_container_name := entry_name; d_type := entry_type_id;
         d_required := VBool (eq_int r 1); d_name := Some nm;
         d_options := Some opts; d_default_value := None |}.

Fixpoint sub_entries_loop (only_required : bool) (entry_name entry_type_id : value)
    (subs : list value) (result : list descriptor) : M (list descriptor) :=
  match subs with
  | [] => ret result
  | sub_entry :: rest =>
      info <- parse_sub_entry entry_name entry_type_id sub_entry ;;
      if only_required && negb (truthy (d_required info)) then
        sub_entries_loop only_required entry_name entry_type_id rest result
      else
        sub_entries_loop only_required entry_name entry_type_id rest (result ++ [info])
  end.

Definition parse_entry (only_required : bool) (entry : value) : M (list descriptor) :=
  entry_name <- getitem entry 1 ;;
  entry_type_id <- getitem entry 3 ;;
  e4 <- getitem entry 4 ;;
  if isinstance_list e4 then
    subs <- iter e4 ;;
    sub_entries_loop only_required entry_name entry_type_id subs []
  else
    print (MsgNotIterable entry) ;;; ret [].

Fixpoint entries_loop (only_required : bool) (qs : list value)
    (parsed_entries : list descriptor) (page_count : nat) : M (list descriptor * nat) :=
  match qs with
  | [] => ret (parsed_entries, page_count)
  | entry :: rest =>
      t <- getitem entry 3 ;;
      if eq_int t FORM_SESSION_TYPE_ID then
        entries_loop only_required rest parsed_entries (page_count + 1)
      else
        ds <- parse_entry only_required entry ;;
        entries_loop only_required rest (parsed_entries ++ ds) page_count
  end.

Definition email_entry : descriptor :=
  {| d_id := VStr (py "emailAddress"); d_container_name := VStr (py "Email Address");
     d_type := VStr (py "required"); d_required := VBool true; d_name := None;
     d_options := Some (VStr (py "email address")); d_default_value := None |}.

(** [','.join(map(str, range(page_count + 1)))] *)
Definition page_history (page_count : nat) : text :=
  join (py ",") (map (fun k => str_of_Z (Z.of_nat k)) (seq 0 (page_count + 1))).

Definition page_history_entry (page_count : nat) : descriptor :=
  {| d_id := VStr (py "pageHistory"); d_container_name := VStr (py "Page History");
     d_type := VStr (py "required"); d_required := VBool false; d_name := None;
     d_options := Some (VStr (py "from 0 to (number of page - 1)"));
     d_default_value := Some (VStr (page_history page_count)) |}.

(** [v] is what [get_fb_public_load_data] returned for the form's URL; the
    result is [None] or the list of descriptors. *)
Definition parse_form_entries (v : value) (only_required : bool) : M (option (list descriptor)) :=
  unusable <- (if negb (truthy v) then ret true else
               v1 <- getitem v 1 ;;
               if negb (truthy v1) then ret true else
               v11 <- getitem v1 1 ;; ret (negb (truthy v11))) ;;
  if (unusable : bool) then print MsgNoEntries ;;; ret None
  else
    v1 <- getitem v 1 ;;
    v11 <- getitem v1 1 ;;
    qs <- iter v11 ;;
    r <- entries_loop only_required qs [] 0 ;;
    let '(parsed_entries, page_count) := r in
    v1 <- getitem v 1 ;;
    v10 <- getitem v1 10 ;;
    flag <- getitem v10 6 ;;
    collect <- gt_int flag 1 ;;
    let parsed_entries :=
      if (collect : bool) then parsed_entries ++ [email_entry] else parsed_entries in
    let parsed_entries :=
      if (0 <? page_count)%nat then parsed_entries ++ [page_history_entry page_count]
      else parsed_entries in
    ret (Some parsed_entries).

(** ** Answer resolver *)

(** [.encode('ascii', 'ignore').decode('utf-8')] *)
Definition encode_ascii_ignore (s : text) : text :=
  List.filter (fun c => c <? 128)%N s.

(** [s.replace(old, new)] for one-character [old] and [new] *)
Definition replace_char (old new : N) (s : text) : text :=
  map (fun c => if (c =? old)%N then new else c) s.

(** [re.sub(r'\s+', ' ', s)]; [in_run] says that the previous character was
    white space. *)
Fixpoint sub_spaces (in_run : bool) (s : text) : text :=
  match s with
  | [] => []
  | c :: s' =>
      if is_space c then
        if in_run then sub_spaces true s' else 32%N :: sub_spaces true s'
      else c :: sub_spaces false s'
  end.

(** [s.strip()] *)
Definition strip (s : text) : text :=
  rev (skip_spaces (rev (skip_spaces s))).

(** [s.lower()] on ASCII text, which is all [normalize_text] applies it to *)
Definition lower (s : text) : text :=
  map (fun c => if ((65 <=? c) && (c <=? 90))%N then (c + 32)%N else c) s.

(** [list.index]: the first position of [x] *)
Fixpoint list_index (x : text) (l : list text) : option nat :=
  match l with
  | [] => None
  | y :: l' => if decide (y = x) then Some 0 else S <$> list_index x l'
  end.

(** [v[::]]; on a dictionary CPython 3.11 raises TypeError (unhashable slice). *)
Definition slice_all (v : value) : M value :=
  match v with
  | VList _ | VStr _ => ret v
  | _ => raise TypeError
  end.

(** A fill strategy: [fill_algorithm(type, id, options, required=, entry_name=)] *)
Definition fill_strategy := value -> value -> value -> value -> value -> M value.

(** [entry.get('default_value')] as a condition *)
Definition has_default (entry : descriptor) : bool :=
  match d_default_value entry with
  | Some v => truthy v
  | None => false
  end.

(** [entry['default_value'] = v] *)
Definition set_default (entry : descriptor) (v : value) : descriptor :=
  {| d_id := d_id entry; d_container_name := d_container_name entry;
     d_type := d_type entry; d_required := d_required entry;
     d_name := d_name entry; d_options := d_options entry;
     d_default_value := Some v |}.

Section Resolver.
Context `{Library}.

(** [normalize_text] on a [str] *)
Definition normalized (s : text) : text :=
  let s := encode_ascii_ignore (nfkd s) in
  let s := replace_char 39 39 (replace_char 96 39 (replace_char 8217 39 s)) in
  let s := sub_spaces false s in
  lower (strip s).

(** [unicodedata.normalize] raises TypeError on anything but a [str]. *)
Definition normalize_text (t : value) : M text :=
  s <- as_str t ;; ret (normalized s).

(** [str(v)], which is what an f-string field without a format shows *)
Definition py_str (v : value) : text :=
  match v with
  | VStr s => s
  | VInt z => str_of_Z z
  | VNone => py "None"
  | VBool true => py "True"
  | VBool false => py "False"
  | _ => repr v
  end.

Definition other_option_entry (entry : descriptor) (selected_value : value) : descriptor :=
  {| d_id := VStr (py_str (d_id entry) ++ py ".other_option_response");
     d_container_name := VStr (py_str (d_container_name entry) ++ py " (Other)");
     d_type := VStr (py "text");
     d_required := d_required entry;
     d_name := None; d_options := None;
     d_default_value := Some selected_value |}.

(** The body of the loop of [fill_form_entries] for an entry without a
    default: the entry as it is left and the entries appended to the list. *)
Definition resolve (fill_algorithm : fill_strategy) (entry : descriptor)
    : M (descriptor * list descriptor) :=
  o <- (match d_options entry with Some o => ret o | None => raise KeyError end) ;;
  options <- slice_all (if truthy o then o else VList []) ;;
  selected_value <- fill_algorithm (d_type entry) (d_id entry) options
                      (d_required entry) (d_container_name entry) ;;
  items <- iter options ;;
  normalized_options <- mapM normalize_text items ;;
  normalized_selected_value <- normalize_text selected_value ;;
  print (MsgComparing normalized_selected_value normalized_options) ;;;
  if truthy selected_value && truthy options
     && bool_decide (normalized_selected_value ∈ normalized_options) then
    match list_index normalized_selected_value normalized_options with
    | Some k =>
        original_value <- getitem options k ;;
        ret (set_default entry original_value, [])
    | None => raise ValueError
    end
  else if truthy selected_value && truthy options then
    ret (set_default entry (VStr (py "__other_option__")),
         [other_option_entry entry selected_value])
  else
    ret (set_default entry selected_value, []).

(** The [for entry in entries] loop: the list iterator holds the index [i]
    and looks the list up afresh at every step, so it sees what the body
    appended. [None] is "out of fuel". *)
Fixpoint fill_loop (fuel : nat) (fill_algorithm : fill_strategy)
    (entries : list descriptor) (i : nat) : option (M (list descriptor)) :=
  match fuel with
  | O => None
  | S fuel' =>
      match entries !! i with
      | None => Some (ret entries)
      | Some entry =>
          if has_default entry then fill_loop fuel' fill_algorithm entries (S i)
          else
            match resolve fill_algorithm entry with
            | (l, Raise e) => Some (l, Raise e)
            | (l, Ok (entry', appended)) =>
                (fun r : M (list descriptor) => (l ++ fst r, snd r))
                  <$> fill_loop fuel' fill_algorithm (<[i := entry']> entries ++ appended) (S i)
            end
      end
  end.

Definition fill_form_entries (fuel : nat) (entries : list descriptor)
    (fill_algorithm : fill_strategy) : option (M (list descriptor)) :=
  fill_loop fuel fill_algorithm entries 0.

(** The two-pass reading of the loop: every entry of the list as it was given
    is resolved in turn, and what the resolutions append is collected apart. *)
Fixpoint resolve_all (fill_algorithm : fill_strategy) (entries : list descriptor)
    : M (list descriptor * list descriptor) :=
  match entries with
  | [] => ret ([], [])
  | entry :: rest =>
      if has_default entry then
        r <- resolve_all fill_algorithm rest ;; ret (entry :: fst r, snd r)
      else
        p <- resolve fill_algorithm entry ;;
        r <- resolve_all fill_algorithm rest ;;
        ret (fst p :: fst r, snd p ++ snd r)
  end.

End Resolver.

(** ** An instance of the library for evaluating the definitions

    [latin1_decomposition] is the compatibility decomposition of the Unicode
    Character Database for the code points below U+0100; [latin1_nfkd] leaves
    other code points as they are, which is right for those without a
    decomposition (U+2019, Cyrillic Д and а, CJK ideographs, ...), and leaves out
    the canonical reordering, which moves combining marks only. *)
Definition latin1_decomposition (c : N) : list N :=
  match c with
  | 160 => [32]
  | 168 => [32; 776]
  | 170 => [97]
  | 175 => [32; 772]
  | 178 => [50]
  | 179 => [51]
  | 180 => [32; 769]
  | 181 => [956]
  | 184 => [32; 807]
  | 185 => [49]
  | 186 => [111]
  | 188 => [49; 8260; 52]
  | 189 => [49; 8260; 50]
  | 190 => [51; 8260; 52]
  | 192 => [65; 768]
  | 193 => [65; 769]
  | 194 => [65; 770]
  | 195 => [65; 771]
  | 196 => [65; 776]
  | 197 => [65; 778]
  | 199 => [67; 807]
  | 200 => [69; 768]
  | 201 => [69; 769]
  | 202 => [69; 770]
  | 203 => [69; 776]
  | 204 => [73; 768]
  | 205 => [73; 769]
  | 206 => [73; 770]
  | 207 => [73; 776]
  | 209 => [78; 771]
  | 210 => [79; 768]
  | 211 => [79; 769]
  | 212 => [79; 770]
  | 213 => [79; 771]
  | 214 => [79; 776]
  | 217 => [85; 768]
  | 218 => [85; 769]
  | 219 => [85; 770]
  | 220 => [85; 776]
  | 221 => [89; 769]
  | 224 => [97; 768]
  | 225 => [97; 769]
  | 226 => [97; 770]
  | 227 => [97; 771]
  | 228 => [97; 776]
  | 229 => [97; 778]
  | 231 => [99; 807]
  | 232 => [101; 768]
  | 233 => [101; 769]
  | 234 => [101; 770]
  | 235 => [101; 776]
  | 236 => [105; 768]
  | 237 => [105; 769]
  | 238 => [105; 770]
  | 239 => [105; 776]
  | 241 => [110; 771]
  | 242 => [111; 768]
  | 243 => [111; 769]
  | 244 => [111; 770]
  | 245 => [111; 771]
  | 246 => [111; 776]
  | 249 => [117; 768]
  | 250 => [117; 769]
  | 251 => [117; 770]
  | 252 => [117; 776]
  | 253 => [121; 769]
  | 255 => [121; 776]
  | _ => [c]
  end%N.

Definition latin1_nfkd (s : text) : text := flat_map latin1_decomposition s.

(** A decoder for the JSON texts made of arrays, integers, [null], [true],
    [false] and strings without escapes; any other text is reported as
    undecodable. An integer of more than 4300 digits, the default of
    [sys.get_int_max_str_digits()], raises ValueError, as in CPython 3.11.
    The recursion limit depends on the state of the interpreter and is left
    out: the texts evaluated here nest two deep. *)
Definition json_blank (c : N) : bool :=
  ((c =? 32) || (c =? 9) || (c =? 10) || (c =? 13))%N.

Fixpoint skip_blank (s : text) : text :=
  match s with
  | c :: s' => if json_blank c then skip_blank s' else s
  | [] => []
  end.

Definition is_digit (c : N) : bool := ((48 <=? c) && (c <=? 57))%N.

Fixpoint decode_digits (acc : Z) (s : text) : Z * text :=
  match s with
  | c :: s' =>
      if is_digit c then decode_digits (10 * acc + Z.of_N (c - 48)) s' else (acc, s)
  | [] => (acc, [])
  end.

(** What the scanner makes of the head of a text. *)
Inductive scanned (A : Type) :=
| Scanned (a : A) (rest : text)
| Malformed
| Overlong.
Arguments Scanned {A} a rest.
Arguments Malformed {A}.
Arguments Overlong {A}.

Definition INT_MAX_STR_DIGITS : nat := 4300.

Definition number_ends (s : text) : bool :=
  match s with
  | c :: _ => negb ((c =? 46) || (c =? 101) || (c =? 69))%N
  | [] => true
  end.

(** An integer without its sign: "0", or digits that do not start with "0". *)
Definition decode_int (negative : bool) (s : text) : scanned value :=
  match s with
  | 48 :: s' => if number_ends s' then Scanned (VInt 0) s' else Malformed
  | c :: _ =>
      if is_digit c then
        let '(z, rest) := decode_digits 0 s in
        if negb (number_ends rest) then Malformed
        else if (INT_MAX_STR_DIGITS <? length s - length rest)%nat then Overlong
        else Scanned (VInt (if negative then - z else z)) rest
      else Malformed
  | [] => Malformed
  end%N.

Fixpoint decode_string (s : text) : option (text * text) :=
  match s with
  | [] => None
  | c :: s' =>
      if (c =? 34)%N then Some ([], s')
      else if ((c =? 92) || (c <? 32))%N then None
      else '(str, rest) ← decode_string s'; Some (c :: str, rest)
  end.

Fixpoint decode_value (fuel : nat) (s : text) : scanned value :=
  match fuel with
  | O => Malformed
  | S fuel' =>
      match skip_blank s with
      | 91 :: s1 =>
          match skip_blank s1 with
          | 93 :: s2 => Scanned (VList []) s2
          | _ =>
              (fix items (n : nat) (s : text) (acc : list value) {struct n} :=
                 match n with
                 | O => Malformed
                 | S n' =>
                     match decode_value fuel' s with
                     | Scanned v s' =>
                         match skip_blank s' with
                         | 44 :: s'' => items n' s'' (acc ++ [v])
                         | 93 :: s'' => Scanned (VList (acc ++ [v])) s''
                         | _ => Malformed
                         end
                     | Malformed => Malformed
                     | Overlong => Overlong
                     end
                 end) (length s1) s1 []
          end
      | 34 :: s1 =>
          match decode_string s1 with
          | Some (str, rest) => Scanned (VStr str) rest
          | None => Malformed
          end
      | 45 :: s1 => decode_int true s1
      | s0 =>
          match strip_prefix (py "null") s0, strip_prefix (py "true") s0,
                strip_prefix (py "false") s0 with
          | Some rest, _, _ => Scanned VNone rest
          | _, Some rest, _ => Scanned (VBool true) rest
          | _, _, Some rest => Scanned (VBool false) rest
          | _, _, _ => decode_int false s0
          end
      end
  end%N.

Definition decode_json (s : text) : loaded :=
  match decode_value (length s) s with
  | Scanned v rest =>
      match skip_blank rest with
      | [] => Loaded v
      | _ => JSONDecodeError (py "Extra data")
      end
  | Malformed => JSONDecodeError (py "Expecting value")
  | Overlong => LoadRaises ValueError
  end.

#[local] Instance test_library : Library :=
  {| nfkd := latin1_nfkd; json_loads := decode_json; repr := fun _ => py "<object>" |}.

(** ** Predicates of the specification *)

(** [rest] reads [body], then "];", and no "];" starts earlier. *)
Definition first_close (rest body post : text) : Prop :=
  rest = body ++ py "];" ++ post ∧
  ∀ body' post', rest = body' ++ py "];" ++ post' → length body ≤ length body'.

(** [s] starts with the literal [var <name> = \[ body \];] and [g] is its
    bracketed text. *)
Definition head_literal (name s g : text) : Prop :=
  ∃ c ws1 ws2 rest body post,
    s = py "var" ++ c :: name ++ ws1 ++ 61%N :: ws2 ++ 91%N :: rest ∧
    is_space c = true ∧
    Forall (λ x, is_space x = true) ws1 ∧
    Forall (λ x, is_space x = true) ws2 ∧
    first_close rest body post ∧
    g = 91%N :: body ++ [93%N].

(** The literal is present in [html]; [g] is the text of its leftmost
    occurrence. *)
Definition literal_found (name html g : text) : Prop :=
  ∃ pre s,
    html = pre ++ s ∧ head_literal name s g ∧
    ∀ pre' s' g', html = pre' ++ s' → head_literal name s' g' → length pre ≤ length pre'.

(** The entry is of the page-break type: [entry[3] == FORM_SESSION_TYPE_ID]. *)
Definition is_page_break (entry : value) : bool :=
  match getitem entry 3 with
  | (_, Ok t) => eq_int t FORM_SESSION_TYPE_ID
  | _ => false
  end.

Definition is_question (entry : value) : bool := negb (is_page_break entry).

(** The pseudo-fields are the descriptors built without a "name" key. *)
Definition is_pseudo (d : descriptor) : bool :=
  match d_name d with
  | None => true
  | Some _ => false
  end.

(** The email-collection modes of the docstring of [parse_form_entries] and
    the value of [v[1][10][6]] for each. *)
Inductive email_mode := DoNotCollect | VerifiedEmail | ResponderInput.

Definition mode_flag (m : email_mode) : Z :=
  match m with
  | DoNotCollect => 1
  | VerifiedEmail => 2
  | ResponderInput => 3
  end.

(** [v == s] for a string literal [s] *)
Definition eq_str (v : value) (s : text) : bool :=
  match v with
  | VStr t => bool_decide (t = s)
  | _ => false
  end.

Definition is_page_history_field (d : descriptor) : bool :=
  is_pseudo d && eq_str (d_id d) (py "pageHistory").

Definition is_email_field (d : descriptor) : bool :=
  is_pseudo d && eq_str (d_id d) (py "emailAddress").

(** ** Sample inputs *)

Definition cafe_accented : text := [67; 97; 102; 233]%N.       (* "Café" *)
Definition dont_curly : text := [100; 111; 110; 8217; 116]%N.   (* "don’t" *)
Definition dont_backtick : text := [100; 111; 110; 96; 116]%N.  (* "don`t" *)
Definition da_cyrillic : text := [1044; 1072]%N.                (* "Да" *)

(** A multiple-choice descriptor as [parse_entry] builds it. *)
Definition choice_field (opts : list text) : descriptor :=
  {| d_id := VInt 1001; d_container_name := VStr (py "Colour"); d_type := VInt 2;
     d_required := VBool true; d_name := Some VNone;
     d_options := Some (VList (map VStr opts)); d_default_value := None |}.

(** A short-answer descriptor that a run of the resolver has given [answer]. *)
Definition answered_text_field (answer : text) : descriptor :=
  {| d_id := VInt 1002; d_container_name := VStr (py "Comment"); d_type := VInt 0;
     d_required := VBool false; d_name := Some VNone;
     d_options := Some VNone; d_default_value := Some (VStr answer) |}.

Definition rgb_field : descriptor := choice_field [py "Red"; py "Green"; py "Blue"].
Definition red_green_field : descriptor := choice_field [py "Red"; py "Green"].
Definition da_field : descriptor := choice_field [da_cyrillic].

(** The fill strategy that answers [s] to every question. *)
Definition constant_answer (s : text) : fill_strategy :=
  λ _ _ _ _ _, ret (VStr s).

(** Question entries of a dump: a required short answer, a page break, a
    multiple choice, and an entry without sub-entries. *)
Definition short_answer_entry : value :=
  VList [VInt 11; VStr (py "Name"); VNone; VInt 0;
         VList [VList [VInt 101; VNone; VInt 1]]].

Definition page_break_entry : value :=
  VList [VInt 12; VStr (py "Next page"); VNone; VInt 8; VNone].

Definition choice_entry : value :=
  VList [VInt 13; VStr (py "Colour"); VNone; VInt 2;
         VList [VList [VInt 102;
                       VList [VList [VStr (py "Red")]; VList [VStr (py "Green")]];
                       VInt 0]]].

Definition heading_entry : value :=
  VList [VInt 14; VStr (py "About you"); VNone; VInt 6; VNone].

(** A dump with the question array [qs] and the email-collection flag [flag]. *)
Definition sample_dump (qs : list value) (flag : Z) : value :=
  VList [VNone;
         VList [VNone; VList qs; VNone; VNone; VNone; VNone; VNone; VNone; VNone; VNone;
                VList [VNone; VNone; VNone; VNone; VNone; VNone; VInt flag]]].

(** ** The response URL *)

(** [s.replace(old, new)] for a non-empty [old], scanning from the left;
    [skip] counts the characters of a replaced occurrence still to pass. *)
Fixpoint replace_from (old new : text) (skip : nat) (s : text) : text :=
  match s with
  | [] => []
  | c :: s' =>
      match skip with
      | S k => replace_from old new k s'
      | O =>
          match strip_prefix old s with
          | Some _ => new ++ replace_from old new (length old - 1) s'
          | None => c :: replace_from old new 0 s'
          end
      end
  end.

(** [s.replace(old, new)]; an empty [old] matches in front of every character
    and at the end. *)
Definition str_replace (old new s : text) : text :=
  match old with
  | [] => new ++ flat_map (λ c, c :: new) s
  | _ :: _ => replace_from old new 0 s
  end.

(** [s.endswith(suffix)] *)
Definition endswith (s suffix : text) : bool :=
  match strip_prefix (rev suffix) (rev s) with
  | Some _ => true
  | None => false
  end.

Definition get_form_response_url (url : text) : text :=
  let url := str_replace (py "/viewform") (py "/formResponse") url in
  if negb (endswith url (py "/formResponse")) then
    let url := if negb (endswith url (py "/")) then url ++ py "/" else url in
    url ++ py "formResponse"
  else url.

(** ** Predicates on descriptors *)

(** [info['required']] as a condition *)
Definition is_required (d : descriptor) : bool := truthy (d_required d).

(** What [parse_entry] builds: the container name and type given, a Boolean
    required flag, a name that is [None] or a string, options that are [None]
    or a non-empty list of truthy values, and no default. *)
Definition parsed_from (entry_name entry_type_id : value) (d : descriptor) : Prop :=
  d_container_name d = entry_name ∧ d_type d = entry_type_id ∧
  (∃ b, d_required d = VBool b) ∧
  (d_name d = Some VNone ∨ ∃ t, d_name d = Some (VStr t)) ∧
  (d_options d = Some VNone
   ∨ ∃ os, d_options d = Some (VList os) ∧ os ≠ [] ∧ Forall (λ o, truthy o = true) os) ∧
  d_default_value d = None.

(** The label [parse_entry] makes of an item [x] of [sub_entry[1]]: [x[0]],
    or "ANY TEXT!!" when [x[0]] is falsy (null, or the empty string). *)
Definition option_label (x o : value) : Prop :=
  ∃ x0, getitem x 0 = ret x0 ∧
        ((truthy x0 = true ∧ o = x0) ∨ (truthy x0 = false ∧ o = VStr ANY_TEXT_FIELD)).

(** What the descriptor [d] has of the sub-entry it is built from: the id
    [sub_entry[0]], the required flag [sub_entry[2] == 1], and for options
    [None] when [sub_entry[1]] is falsy, else the labels of its items, one
    per item and in their order. *)
Definition built_from (sub_entry : value) (d : descriptor) : Prop :=
  getitem sub_entry 0 = ret (d_id d) ∧
  (∃ r, getitem sub_entry 2 = ret r ∧ d_required d = VBool (eq_int r 1)) ∧
  ∃ s1, getitem sub_entry 1 = ret s1 ∧
        ((truthy s1 = false ∧ d_options d = Some VNone)
         ∨ (truthy s1 = true ∧
            ∃ xs os, iter s1 = ret xs ∧ d_options d = Some (VList os)
                     ∧ Forall2 option_label xs os)).

(** ** Predicates on normalised text *)

Definition is_upper (c : N) : bool := ((65 <=? c) && (c <=? 90))%N.

(** What [lower] does to one character. *)
Definition lower_char (c : N) : N := if ((65 <=? c) && (c <=? 90))%N then (c + 32)%N else c.

(** ASCII, not a capital letter, not a backtick. *)
Definition normal_char (c : N) : bool :=
  (c <? 128)%N && negb (is_upper c) && negb (c =? 96)%N.

Definition head_not_space (s : text) : bool :=
  match s with
  | c :: _ => negb (is_space c)
  | [] => true
  end.

(** Every white-space character is a space, and no white space follows it. *)
Fixpoint single_spaced (s : text) : bool :=
  match s with
  | [] => true
  | c :: s' =>
      (if is_space c then (c =? 32)%N && head_not_space s' else true) && single_spaced s'
  end.

(** No white space at either end. *)
Definition unpadded (s : text) : Prop :=
  head_not_space s = true ∧ head_not_space (rev s) = true.

(** ** More sample inputs *)

(** A short-answer descriptor as [parse_entry] builds it. *)
Definition text_field : descriptor :=
  {| d_id := VInt 1003; d_container_name := VStr (py "Name"); d_type := VInt 0;
     d_required := VBool true; d_name := Some VNone;
     d_options := Some VNone; d_default_value := None |}.

(** A descriptor without the "options" key and without a default. *)
Definition keyless_field : descriptor :=
  {| d_id := VInt 1004; d_container_name := VStr (py "Other"); d_type := VStr (py "text");
     d_required := VBool false; d_name := None;
     d_options := None; d_default_value := None |}.

(** The fill strategy that answers the list of options itself. *)
Definition every_option : fill_strategy :=
  λ _ _ options _ _, ret options.

(** ** The request for a form

    What [get_form_submit_request] and the functions of [ggg.py] print on top
    of the lines of [msg]. *)
Inductive line :=
| Printed (m : msg)                                   (* a line of the functions called *)
| PrintedEntries (entries : option (list descriptor)) (* print(entries) *)
| PrintedGenerated                                    (* 'Generated form request data' *)
| PrintedResult (result : text)                       (* print(result) *)
| Saved (output content : text)                       (* the file written, "Saved to {output}" *)
| PrintedData (data : option text)                    (* "Data: {data}" *)
| PrintedResponse (content : text)                    (* "Response from GPT-4:\n{content}" *)
| PrintedNotArray                                     (* "Error: The generated output is not a JSON array." *)
| PrintedDecodeError.                                 (* "Error decoding JSON response from GPT-4." *)

(** How a call ends: a returned value, an exception of [exn], or the
    [OSError] of [open]. *)
Inductive outcome (A : Type) :=
| Returned (a : A)
| Raised (e : exn)
| RaisedOSError.
Arguments Returned {A} a.
Arguments Raised {A} e.
Arguments RaisedOSError {A}.

Section SubmitRequest.
Context `{Library}.

(** [generator.generate_form_request_dict], a module of the repository that
    is not among the sources: any function from the descriptors and the
    comment flag to a text or an exception. *)
Variable generate_form_request_dict : list descriptor → bool → result text.

(** Whether [open(output, "w")] succeeds. *)
Variable writable : text → bool.

(** [get_form_submit_request] from [if not entries] on. *)
Definition request_of_entries (log : list line) (entries : option (list descriptor))
    (output : text) (with_comment : bool) : list line * outcome (option text) :=
  match entries with
  | None | Some [] => (log, Returned None)
  | Some (entry :: rest) =>
      let log := log ++ [PrintedEntries entries] in
      match generate_form_request_dict (entry :: rest) with_comment with
      | Raise e => (log, Raised e)
      | Ok result =>
          let log := log ++ [PrintedGenerated; PrintedResult result] in
          if decide (output = py "console") then
            (log ++ [PrintedResult result], Returned None)
          else if decide (output = py "return") then
            (log, Returned (Some result))
          else if writable output then
            (log ++ [Saved output result], Returned None)
          else (log, RaisedOSError)
      end
  end.

(** [v] is what [get_fb_public_load_data] returned for the URL;
    [fill_algorithm] is [None] or a fill strategy. Iterating [None], which is
    what [fill_form_entries] does when the entries could not be parsed, raises
    TypeError. The result is [None] when the fuel of the loop of
    [fill_form_entries] runs out. *)
Definition get_form_submit_request (fuel : nat) (v : value) (output : text)
    (only_required with_comment : bool) (fill_algorithm : option fill_strategy)
    : option (list line * outcome (option text)) :=
  match parse_form_entries v only_required with
  | (l, Raise e) => Some (map Printed l, Raised e)
  | (l, Ok entries) =>
      let log := map Printed l ++ [PrintedEntries entries] in
      match fill_algorithm with
      | None => Some (request_of_entries log entries output with_comment)
      | Some f =>
          match entries with
          | None => Some (log, Raised TypeError)
          | Some es =>
              match fill_form_entries fuel es f with
              | None => None
              | Some (l', Raise e) => Some (log ++ map Printed l', Raised e)
              | Some (l', Ok es') =>
                  Some (request_of_entries (log ++ map Printed l') (Some es')
                          output with_comment)
              end
          end
      end
  end.

End SubmitRequest.

(** ** Filling from JSON values ([ggg.py]) *)

(** [d.get(key)] on the items of a dictionary, whose keys are distinct *)
Fixpoint dict_get (key : text) (d : list (text * value)) : option value :=
  match d with
  | [] => None
  | (k, v) :: d' => if decide (k = key) then Some v else dict_get key d'
  end.

(** [sub in s] for two strings *)
Fixpoint str_contains (sub s : text) : bool :=
  match strip_prefix sub s with
  | Some _ => true
  | None =>
      match s with
      | [] => false
      | _ :: s' => str_contains sub s'
      end
  end.

(** [key in v] for a string [key]: a key of a dictionary, an item of a list
    (only a string equals a string), a substring of a string; TypeError on
    what is not a container. *)
Definition contains (v : value) (key : text) : M bool :=
  match v with
  | VDict d => ret (match dict_get key d with Some _ => true | None => false end)
  | VList l => ret (existsb (λ x, eq_str x key) l)
  | VStr s => ret (str_contains key s)
  | _ => raise TypeError
  end.

(** [v[key]] for a string [key] *)
Definition subscript (v : value) (key : text) : M value :=
  match v with
  | VDict d =>
      match dict_get key d with
      | Some x => ret x
      | None => raise KeyError
      end
  | _ => raise TypeError
  end.

(** What one call of [fill_with_json_values] takes from outside the program:
    the position [random.choice] draws, the positions [random.sample] draws
    (in CPython distinct, and between one and [len] of them), and the clock
    as [strftime] formats it. A position is reduced modulo the length. *)
Record draws := {
  drawn_choice : nat;
  drawn_sample : list nat;
  today : text;
  now : text
}.

(** [random.choice(seq)]: IndexError on an empty sequence *)
Definition random_choice (d : draws) (seq : value) : M value :=
  n <- len seq ;;
  if decide (n = 0) then raise IndexError else getitem seq (drawn_choice d mod n).

(** [random.sample(seq, k=random.randint(1, len(seq)))]: [randint] raises
    ValueError on the empty range, [sample] TypeError on what is not a
    sequence. *)
Definition random_sample (d : draws) (seq : value) : M value :=
  n <- len seq ;;
  if decide (n = 0) then raise ValueError
  else
    match seq with
    | VDict _ => raise TypeError
    | _ =>
        picked <- mapM (λ p, getitem seq (p mod n)) (drawn_sample d) ;;
        ret (VList picked)
    end.

(** [s.startswith(prefix)] *)
Definition startswith (s prefix : text) : bool :=
  match strip_prefix prefix s with
  | Some _ => true
  | None => false
  end.

Section Autofill.
Context `{Library}.

Definition fill_with_json_values (d : draws) (json_values : value) : fill_strategy :=
  λ type_id entry_id options required entry_name,
    let full_entry_id := py "entry." ++ py_str entry_id in
    found <- (if truthy json_values then contains json_values full_entry_id
              else ret false) ;;
    if found then subscript json_values full_entry_id
    else if eq_int type_id 0 || eq_int type_id 1 then
      ret (VStr (if negb (truthy required) then [] else py "Ok!"))
    else if eq_int type_id 2 || eq_int type_id 3 || eq_int type_id 5 || eq_int type_id 7 then
      random_choice d options
    else if eq_int type_id 4 then random_sample d options
    else if eq_int type_id 9 then ret (VStr (today d))
    else if eq_int type_id 10 then ret (VStr (now d))
    else ret (VStr []).

(** The lambda [generate_request_body] passes as the fill algorithm: at
    every call it answers as [fill_with_json_values] does, for some draws. *)
Definition drawn_from (json_values : value) (fill_algorithm : fill_strategy) : Prop :=
  ∀ type_id entry_id options required entry_name, ∃ d,
    fill_algorithm type_id entry_id options required entry_name
    = fill_with_json_values d json_values type_id entry_id options required entry_name.

(** The JSON values hold nothing under the key of the entry:
    [json_values and full_entry_id in json_values] is false. *)
Definition unanswered (json_values entry_id : value) : Prop :=
  truthy json_values = false
  ∨ contains json_values (py "entry." ++ py_str entry_id) = ret false.

(** [type_id in [2, 3, 5, 7]] *)
Definition is_choice_type (type_id : value) : bool :=
  eq_int type_id 2 || eq_int type_id 3 || eq_int type_id 5 || eq_int type_id 7.

(** A multiple choice, dropdown, linear scale or grid question still to be
    answered, with labels as [parse_entry] leaves them (none empty), for which
    the JSON values hold nothing. *)
Definition open_choice (json_values : value) (entry : descriptor) : Prop :=
  has_default entry = false ∧ is_choice_type (d_type entry) = true ∧
  unanswered json_values (d_id entry) ∧
  ∃ opts, d_options entry = Some (VList (map VStr opts)) ∧ opts ≠ [] ∧
          Forall (λ o, o ≠ []) opts.

Variable generate_form_request_dict : list descriptor → bool → result text.
Variable writable : text → bool.

(** [fill_algorithm] is the lambda over [fill_with_json_values]; a
    [JSONDecodeError], which nothing catches here, is a ValueError. *)
Definition generate_request_body (fuel : nat) (v : value) (only_required : bool)
    (fill_algorithm : fill_strategy) : option (list line * outcome value) :=
  match get_form_submit_request generate_form_request_dict writable fuel v (py "return")
          only_required false (Some fill_algorithm) with
  | None => None
  | Some (log, Returned data) =>
      let log := log ++ [PrintedData data] in
      match data with
      | None => Some (log, Raised TypeError)
      | Some t =>
          match json_loads t with
          | Loaded payload => Some (log, Returned payload)
          | JSONDecodeError _ => Some (log, Raised ValueError)
          | LoadRaises e => Some (log, Raised e)
          end
      end
  | Some (log, Raised e) => Some (log, Raised e)
  | Some (log, RaisedOSError) => Some (log, RaisedOSError)
  end.

(** [call_gpt4] from the content of the first choice of the completion on:
    what is printed, and the responses returned or the exception that
    [except json.JSONDecodeError] lets through. *)
Definition call_gpt4 (content : text) : list line * result (list value) :=
  let content := strip content in
  let content :=
    if startswith content (py "```json") && endswith content (py "```") then
      strip (drop 7 (take (length content - 3) content))
    else content in
  match json_loads content with
  | Loaded (VList response_data) => ([PrintedResponse content], Ok response_data)
  | Loaded _ => ([PrintedResponse content; PrintedNotArray], Ok [])
  | JSONDecodeError _ => ([PrintedResponse content; PrintedDecodeError], Ok [])
  | LoadRaises e => ([PrintedResponse content], Raise e)
  end.

(** The [while] loop of [fill_with_llm]; [contents i] is the content the
    model returns at the call number [i]. An exception of a call leaves the
    loop. [None] is "out of fuel". *)
Fixpoint collect_responses (fuel : nat) (contents : nat → text) (i : nat)
    (all_responses : list value) (total_responses : Z)
    : option (list line * result (list value)) :=
  match fuel with
  | O => None
  | S fuel' =>
      if (Z.of_nat (length all_responses) <? total_responses)%Z then
        match call_gpt4 (contents i) with
        | (log, Raise e) => Some (log, Raise e)
        | (log, Ok batch_responses) =>
            let all_responses := all_responses ++ batch_responses in
            let all_responses :=
              if (total_responses <=? Z.of_nat (length all_responses))%Z
              then take (Z.to_nat total_responses) all_responses
              else all_responses in
            (λ r, (log ++ fst r, snd r))
              <$> collect_responses fuel' contents (S i) all_responses total_responses
        end
      else Some ([], Ok all_responses)
  end.

(** The responses a call returned; none when it raised. *)
Definition responses (r : list line * result (list value)) : list value :=
  match snd r with
  | Ok batch_responses => batch_responses
  | Raise _ => []
  end.

(** Every call up to the call number [n] returns. *)
Definition calls_return (contents : nat → text) (n : nat) : Prop :=
  ∀ i, i ≤ n → ∃ log batch_responses, call_gpt4 (contents i) = (log, Ok batch_responses).

(** The responses of the calls number [0] to [n - 1], and what they print. *)
Definition batches (contents : nat → text) (n : nat) : list value :=
  flat_map (λ i, responses (call_gpt4 (contents i))) (seq 0 n).

Definition batch_lines (contents : nat → text) (n : nat) : list line :=
  flat_map (λ i, fst (call_gpt4 (contents i))) (seq 0 n).

End Autofill.

(** ** Sample inputs for [ggg.py] *)

(** A checkbox descriptor as [parse_entry] builds it. *)
Definition checkbox_field : descriptor :=
  {| d_id := VInt 1005; d_container_name := VStr (py "Toppings"); d_type := VInt 4;
     d_required := VBool false; d_name := Some VNone;
     d_options := Some (VList [VStr (py "Ham"); VStr (py "Olives")]);
     d_default_value := None |}.

Definition sample_draws : draws :=
  {| drawn_choice := 4; drawn_sample := [1; 0];
     today := py "2024-05-17"; now := py "09:30" |}.

(** A generator that writes the number of descriptors, and a file system
    without a writable path. *)
Definition count_generator : list descriptor → bool → result text :=
  λ entries _, Ok (str_of_Z (Z.of_nat (length entries))).

Definition read_only : text → bool := λ _, false.

(** ** The monad laws *)

Lemma bind_ret_l {A B} (a : A) (k : A -> M B) : bind (ret a) k = k a.
Proof. unfold bind, ret. destruct (k a); reflexivity. Qed.

Lemma bind_ret_r {A} (m : M A) : bind m ret = m.
Proof. destruct m as [l [a|e]]; simpl; [rewrite app_nil_r|]; reflexivity. Qed.

Lemma bind_assoc {A B C} (m : M A) (f : A -> M B) (g : B -> M C) :
  bind (bind m f) g = bind m (fun x => bind (f x) g).
Proof.
  destruct m as [l [a|e]]; simpl; [|reflexivity].
  destruct (f a) as [l1 [b|e1]]; simpl; [|reflexivity].
  destruct (g b) as [l2 r]. rewrite app_assoc. reflexivity.
Qed.

Lemma bind_raise {A B} (e : exn) (k : A -> M B) : bind (raise e) k = raise e.
Proof. reflexivity. Qed.

Lemma bind_ok {A B} (m : M A) (k : A -> M B) l a l' r :
  m = (l, Ok a) → k a = (l', r) → bind m k = (l ++ l', r).
Proof. intros -> Hk. simpl. rewrite Hk. reflexivity. Qed.

Lemma bind_ext {A B} (m : M A) (k1 k2 : A -> M B) :
  (∀ a, k1 a = k2 a) → bind m k1 = bind m k2.
Proof. intros E. destruct m as [l [a|e]]; simpl; [rewrite E|]; reflexivity. Qed.

(** ** The schema extractor *)

Lemma strip_prefix_Some p s r : strip_prefix p s = Some r ↔ s = p ++ r.
Proof.
  revert s. induction p as [|a p IH]; intros s; simpl.
  - split; congruence.
  - destruct s as [|b s]; [split; discriminate|].
    destruct (N.eqb_spec a b) as [->|Hne].
    + rewrite IH. split; congruence.
    + split; [discriminate|]. intros [= E _]. congruence.
Qed.

Lemma strip_prefix_app p r : strip_prefix p (p ++ r) = Some r.
Proof. apply strip_prefix_Some. reflexivity. Qed.

Lemma skip_spaces_split s :
  ∃ ws, s = ws ++ skip_spaces s ∧ Forall (λ x, is_space x = true) ws.
Proof.
  induction s as [|c s (ws & E & F)]; simpl.
  - exists []. split; [reflexivity|constructor].
  - destruct (is_space c) eqn:Hc.
    + exists (c :: ws). split; [simpl; congruence|constructor; assumption].
    + exists []. split; [reflexivity|constructor].
Qed.

Lemma skip_spaces_app ws c r :
  Forall (λ x, is_space x = true) ws → is_space c = false →
  skip_spaces (ws ++ c :: r) = c :: r.
Proof.
  intros F Hc. induction F as [|x ws Hx F IH]; simpl.
  - rewrite Hc. reflexivity.
  - rewrite Hx. exact IH.
Qed.

Lemma until_close_Some rest body :
  until_close rest = Some body → ∃ post, first_close rest body post.
Proof.
  revert body. induction rest as [|c rest IH]; intros body; [discriminate|].
  cbn [until_close].
  destruct (strip_prefix (py "];") (c :: rest)) as [post|] eqn:Hp.
  - intros [= <-]. exists post. apply strip_prefix_Some in Hp. split; [exact Hp|].
    intros; simpl; lia.
  - destruct (until_close rest) as [b|] eqn:Hu; [|discriminate].
    intros [= <-]. destruct (IH b eq_refl) as (post & E & Hmin).
    exists post. split; [rewrite <- app_comm_cons; f_equal; exact E|].
    intros [|c' body'] post' E'.
    + exfalso. assert (strip_prefix (py "];") (c :: rest) = Some post') as Hs
        by (apply strip_prefix_Some; exact E').
      congruence.
    + simpl in E'. injection E' as _ E'. specialize (Hmin _ _ E'). simpl. lia.
Qed.

Lemma until_close_complete rest body post :
  rest = body ++ py "];" ++ post → is_Some (until_close rest).
Proof.
  revert rest. induction body as [|c body IH]; intros rest ->.
  - simpl. eauto.
  - change ((c :: body) ++ py "];" ++ post) with (c :: (body ++ py "];" ++ post)).
    cbn [until_close].
    destruct (strip_prefix _ _); [eauto|].
    destruct (IH _ eq_refl) as [b ->]. simpl. eauto.
Qed.

Lemma first_close_unique rest b1 p1 b2 p2 :
  first_close rest b1 p1 → first_close rest b2 p2 → b1 = b2.
Proof.
  intros [E1 M1] [E2 M2].
  pose proof (M1 _ _ E2). pose proof (M2 _ _ E1).
  rewrite E1 in E2. apply app_inj_1 in E2; [tauto|lia].
Qed.

Lemma until_close_first rest body post :
  first_close rest body post → until_close rest = Some body.
Proof.
  intros Hf. destruct (until_close_complete rest body post (proj1 Hf)) as [b Hb].
  destruct (until_close_Some _ _ Hb) as [p Hp].
  rewrite Hb. f_equal. eapply first_close_unique; eassumption.
Qed.

Lemma match_here_sound name s g : match_here name s = Some g → head_literal name s g.
Proof.
  unfold match_here. intros Hm.
  destruct (strip_prefix (py "var") s) as [s1|] eqn:H1; [|discriminate].
  apply strip_prefix_Some in H1. simpl in Hm.
  destruct s1 as [|c s2]; [discriminate|].
  destruct (is_space c) eqn:Hc; [|discriminate].
  destruct (strip_prefix name s2) as [s3|] eqn:H3; [|discriminate].
  apply strip_prefix_Some in H3. simpl in Hm.
  destruct (skip_spaces_split s3) as (ws1 & E1 & F1).
  destruct (skip_spaces s3) as [|e s4]; [discriminate|].
  destruct (N.eqb_spec e 61) as [->|Hne];
    [|destruct e as [|[]]; try discriminate; repeat (destruct p as [p|p|]; try discriminate); congruence].
  destruct (skip_spaces_split s4) as (ws2 & E2 & F2).
  destruct (skip_spaces s4) as [|b s5]; [discriminate|].
  destruct (N.eqb_spec b 91) as [->|Hne];
    [|destruct b as [|[]]; try discriminate; repeat (destruct p as [p|p|]; try discriminate); congruence].
  destruct (until_close s5) as [body|] eqn:Hu; [|discriminate].
  simpl in Hm. injection Hm as <-.
  destruct (until_close_Some _ _ Hu) as [post Hf].
  exists c, ws1, ws2, s5, body, post. repeat split; try assumption; try apply Hf.
  rewrite H1, H3, E1, E2. reflexivity.
Qed.

Lemma match_here_complete name s g : head_literal name s g → match_here name s = Some g.
Proof.
  intros (c & ws1 & ws2 & rest & body & post & -> & Hc & F1 & F2 & Hf & ->).
  unfold match_here. rewrite strip_prefix_app. cbn [mbind option_bind].
  rewrite Hc, strip_prefix_app. cbn [mbind option_bind].
  rewrite skip_spaces_app by (assumption || reflexivity).
  rewrite skip_spaces_app by (assumption || reflexivity).
  rewrite (until_close_first _ _ _ Hf). reflexivity.
Qed.

Lemma regex_search_unfold name html :
  regex_search name html =
  match match_here name html with
  | Some g => Some g
  | None => match html with [] => None | _ :: html' => regex_search name html' end
  end.
Proof. destruct html; reflexivity. Qed.

Lemma regex_search_found name html g :
  regex_search name html = Some g → literal_found name html g.
Proof.
  induction html as [|c html IH]; rewrite regex_search_unfold.
  - destruct (match_here name []) as [g'|] eqn:Hm; [|discriminate].
    intros [= ->]. exists [], []. split; [reflexivity|]. split.
    + apply match_here_sound, Hm.
    + intros; simpl; lia.
  - destruct (match_here name (c :: html)) as [g'|] eqn:Hm.
    + intros [= ->]. exists [], (c :: html). split; [reflexivity|]. split.
      * apply match_here_sound, Hm.
      * intros; simpl; lia.
    + intros Hr. destruct (IH Hr) as (pre & s & -> & Hh & Hmin).
      exists (c :: pre), s. split; [reflexivity|]. split; [exact Hh|].
      intros [|c' pre'] s' g' E Hh'.
      * simpl in E. subst s'. apply match_here_complete in Hh'. congruence.
      * simpl in E. injection E as _ E. specialize (Hmin _ _ _ E Hh'). simpl. lia.
Qed.

Lemma regex_search_leftmost name html g :
  literal_found name html g → regex_search name html = Some g.
Proof.
  intros (pre & s & -> & Hh & Hmin). induction pre as [|c pre IH].
  - simpl. rewrite regex_search_unfold, (match_here_complete _ _ _ Hh). reflexivity.
  - rewrite regex_search_unfold.
    destruct (match_here name ((c :: pre) ++ s)) as [g'|] eqn:Hm.
    + apply match_here_sound in Hm.
      specialize (Hmin [] _ _ eq_refl Hm). simpl in Hmin. lia.
    + simpl. apply IH. intros pre' s' g' E Hh'.
      specialize (Hmin (c :: pre') s' g'). simpl in Hmin.
      rewrite E in Hmin. specialize (Hmin eq_refl Hh'). lia.
Qed.

Lemma regex_search_occurrence name pre s g :
  head_literal name s g → is_Some (regex_search name (pre ++ s)).
Proof.
  intros Hh. induction pre as [|c pre IH]; rewrite regex_search_unfold.
  - simpl. rewrite (match_here_complete _ _ _ Hh). eauto.
  - destruct (match_here name ((c :: pre) ++ s)); [eauto|exact IH].
Qed.

Section Extractor.
Context `{Library}.

(** C8. For every name and markup: when the literal [var <name> = \[...\];]
    occurs nowhere, extraction returns [None] and prints nothing; when it
    occurs, extraction hands the bracketed text of its leftmost occurrence
    (up to the first "];") to [json.loads] and returns the decoded value, or
    prints the decoding error and returns [None] on a [JSONDecodeError]. Any
    other exception of [json.loads] (ValueError for an integer over the digit
    limit, RecursionError) leaves the function, nothing printed: the [try]
    catches [JSONDecodeError] only. *)
Theorem extract_script_variables_spec (name html : text) :
  ((∀ pre s g, html = pre ++ s → ¬ head_literal name s g) →
     extract_script_variables name html = ret VNone) ∧
  (∀ g, literal_found name html g →
     extract_script_variables name html =
       match json_loads g with
       | Loaded v => ret v
       | JSONDecodeError e => ([MsgJsonError e], Ok VNone)
       | LoadRaises e => raise e
       end) ∧
  ((∃ pre s g, html = pre ++ s ∧ head_literal name s g) →
     ∃ g, literal_found name html g) ∧
  (∀ g e, literal_found name html g → json_loads g = LoadRaises e →
     extract_script_variables name html = raise e).
Proof.
  unfold extract_script_variables. repeat split.
  - intros Habs. destruct (regex_search name html) as [g|] eqn:Hr; [|reflexivity].
    destruct (regex_search_found _ _ _ Hr) as (pre & s & E & Hh & _).
    destruct (Habs _ _ _ E Hh).
  - intros g Hf. rewrite (regex_search_leftmost _ _ _ Hf).
    destruct (json_loads g); reflexivity.
  - intros (pre & s & g & -> & Hh).
    destruct (regex_search_occurrence name pre s g Hh) as [g' Hg'].
    exists g'. apply regex_search_found, Hg'.
  - intros g e Hf Hj. rewrite (regex_search_leftmost _ _ _ Hf), Hj. reflexivity.
Qed.

End Extractor.

(** ** The schema normaliser *)

Lemma bind_Ok_inv {A B} (m : M A) (k : A -> M B) l b :
  bind m k = (l, Ok b) →
  ∃ l1 a l2, m = (l1, Ok a) ∧ k a = (l2, Ok b) ∧ l = l1 ++ l2.
Proof.
  destruct m as [l1 [a|e]]; simpl; [|discriminate].
  destruct (k a) as [l2 r] eqn:Hk. intros [= <- ->]. eauto 6.
Qed.

Ltac inv_binds H :=
  repeat (apply bind_Ok_inv in H; destruct H as (? & ? & ? & ? & H & ?)).

Lemma getitem_silent v i l r : getitem v i = (l, r) → l = [].
Proof.
  destruct v; simpl; try (intros [= <- _]; reflexivity).
  - destruct (s !! i); intros [= <- _]; reflexivity.
  - destruct (l0 !! i); intros [= <- _]; reflexivity.
Qed.

Lemma parse_sub_entry_named entry_name entry_type_id sub_entry l info :
  parse_sub_entry entry_name entry_type_id sub_entry = (l, Ok info) →
  is_pseudo info = false.
Proof.
  unfold parse_sub_entry. intros Hp. inv_binds Hp.
  injection Hp as _ <-. reflexivity.
Qed.

Lemma sub_entries_loop_named only_required entry_name entry_type_id subs :
  ∀ result l ds,
    sub_entries_loop only_required entry_name entry_type_id subs result = (l, Ok ds) →
    Forall (λ d, is_pseudo d = false) result →
    Forall (λ d, is_pseudo d = false) ds.
Proof.
  induction subs as [|sub subs IH]; intros result l ds; simpl.
  - intros [= _ <-] F. exact F.
  - intros Hl F. apply bind_Ok_inv in Hl. destruct Hl as (l1 & info & l2 & Hp & Hl & _).
    apply parse_sub_entry_named in Hp.
    destruct (only_required && negb (truthy (d_required info))).
    + eapply IH; eassumption.
    + eapply IH; [eassumption|]. apply Forall_app. split; [exact F|].
      constructor; [exact Hp|constructor].
Qed.

Lemma parse_entry_named only_required entry l ds :
  parse_entry only_required entry = (l, Ok ds) → Forall (λ d, is_pseudo d = false) ds.
Proof.
  unfold parse_entry. intros Hp.
  apply bind_Ok_inv in Hp. destruct Hp as (? & entry_name & ? & _ & Hp & _).
  apply bind_Ok_inv in Hp. destruct Hp as (? & entry_type_id & ? & _ & Hp & _).
  apply bind_Ok_inv in Hp. destruct Hp as (? & e4 & ? & _ & Hp & _).
  destruct (isinstance_list e4).
  - apply bind_Ok_inv in Hp. destruct Hp as (? & subs & ? & _ & Hp & _).
    eapply sub_entries_loop_named; [exact Hp|constructor].
  - injection Hp as _ <-. constructor.
Qed.

Lemma mapM_parse_entry_named only_required qs l dss :
  mapM (parse_entry only_required) qs = (l, Ok dss) →
  Forall (λ d, is_pseudo d = false) (concat dss).
Proof.
  revert l dss. induction qs as [|q qs IH]; intros l dss; simpl.
  - intros [= _ <-]. constructor.
  - intros Hm. apply bind_Ok_inv in Hm. destruct Hm as (? & ds & ? & Hp & Hm & _).
    apply bind_Ok_inv in Hm. destruct Hm as (? & dss' & ? & Hr & Hm & _).
    injection Hm as _ <-. simpl. apply Forall_app. split.
    + eapply parse_entry_named, Hp.
    + eapply IH, Hr.
Qed.

Lemma parse_entry_untyped only_required entry l e :
  getitem entry 3 = (l, Raise e) → parse_entry only_required entry = ([], Raise e).
Proof.
  unfold parse_entry.
  destruct entry as [| | | |s|s|]; simpl; try (intros [= _ <-]; reflexivity).
  - destruct s as [|a [|b [|c [|d s]]]]; simpl; intros [= _ <-]; reflexivity.
  - destruct s as [|a [|b [|c [|d s]]]]; simpl; intros [= _ <-]; reflexivity.
Qed.

Lemma entries_loop_spec only_required qs :
  ∀ parsed_entries page_count,
    entries_loop only_required qs parsed_entries page_count =
    (dss <- mapM (parse_entry only_required) (List.filter is_question qs) ;;
     ret (parsed_entries ++ concat dss,
          page_count + length (List.filter is_page_break qs))).
Proof.
  induction qs as [|entry rest IH]; intros parsed n.
  - simpl. rewrite app_nil_r, Nat.add_0_r. reflexivity.
  - cbn [entries_loop List.filter]. unfold is_question at 1.
    destruct (getitem entry 3) as [l [t|e]] eqn:Hg;
      pose proof (getitem_silent _ _ _ _ Hg) as ->.
    + assert (is_page_break entry = eq_int t FORM_SESSION_TYPE_ID) as ->
        by (unfold is_page_break; rewrite Hg; reflexivity).
      change ([], Ok t) with (ret t). rewrite bind_ret_l.
      destruct (eq_int t FORM_SESSION_TYPE_ID); cbn [negb].
      * rewrite IH. apply bind_ext. intros dss. cbn [length].
        rewrite <- Nat.add_assoc. reflexivity.
      * cbn [mapM]. rewrite !bind_assoc. apply bind_ext. intros ds.
        rewrite IH, !bind_assoc. apply bind_ext. intros dss.
        rewrite bind_ret_l. cbn [concat]. rewrite app_assoc. reflexivity.
    + assert (is_page_break entry = false) as ->
        by (unfold is_page_break; rewrite Hg; reflexivity).
      cbn [negb mapM]. rewrite (parse_entry_untyped _ _ _ _ Hg). reflexivity.
Qed.

Lemma parse_form_entries_usable v only_required v1 v11 qs :
  truthy v = true → getitem v 1 = ret v1 → truthy v1 = true →
  getitem v1 1 = ret v11 → truthy v11 = true → iter v11 = ret qs →
  parse_form_entries v only_required =
  (dss <- mapM (parse_entry only_required) (List.filter is_question qs) ;;
   v10 <- getitem v1 10 ;;
   flag <- getitem v10 6 ;;
   collect <- gt_int flag 1 ;;
   ret (Some (concat dss
              ++ (if (collect : bool) then [email_entry] else [])
              ++ (if (0 <? length (List.filter is_page_break qs))%nat
                  then [page_history_entry (length (List.filter is_page_break qs))]
                  else [])))).
Proof.
  intros Tv G1 Tv1 G11 Tv11 Hq. unfold parse_form_entries.
  rewrite Tv, G1. cbn [negb]. rewrite ?bind_ret_l, Tv1. cbn [negb].
  rewrite G11, ?bind_ret_l, Tv11. cbn [negb]. rewrite ?bind_ret_l.
  rewrite Hq, ?bind_ret_l, entries_loop_spec, bind_assoc.
  apply bind_ext. intros dss. rewrite bind_ret_l. cbv beta iota.
  cbn [app Nat.add]. rewrite bind_ret_l.
  apply bind_ext. intros v10. apply bind_ext. intros flag. apply bind_ext. intros collect.
  destruct collect, (0 <? _)%nat; rewrite <- ?app_assoc, ?app_nil_r; reflexivity.
Qed.

Lemma filter_pseudo_nil (g : descriptor → bool) ds :
  Forall (λ d, is_pseudo d = false) ds →
  List.filter (λ d, is_pseudo d && g d) ds = [].
Proof.
  induction 1 as [|d ds Hd _ IH]; simpl; [reflexivity|].
  rewrite Hd. exact IH.
Qed.

Lemma entries_loop_app only_required qs1 qs2 :
  ∀ parsed_entries page_count,
    entries_loop only_required (qs1 ++ qs2) parsed_entries page_count =
    (r <- entries_loop only_required qs1 parsed_entries page_count ;;
     entries_loop only_required qs2 (fst r) (snd r)).
Proof.
  induction qs1 as [|entry qs1 IH]; intros parsed n.
  - simpl app. cbn [entries_loop]. rewrite bind_ret_l. reflexivity.
  - rewrite <- app_comm_cons. cbn [entries_loop]. rewrite bind_assoc.
    apply bind_ext. intros t. destruct (eq_int t FORM_SESSION_TYPE_ID).
    + apply IH.
    + rewrite bind_assoc. apply bind_ext. intros ds. apply IH.
Qed.

Lemma parse_entry_not_list only_required entry e4 :
  getitem entry 4 = ret e4 → isinstance_list e4 = false →
  parse_entry only_required entry = ([MsgNotIterable entry], Ok []).
Proof.
  unfold parse_entry. intros G4 Hl.
  destruct entry as [| | | |s|s|]; try discriminate.
  - destruct s as [|a [|b [|c [|d [|e s]]]]]; try discriminate.
    injection G4 as <-. reflexivity.
  - destruct s as [|a [|b [|c [|d [|e s]]]]]; try discriminate.
    injection G4 as <-. simpl. rewrite Hl. reflexivity.
Qed.

(** C5. For a dump whose question array [qs] is usable and whose questions and
    email flag are read without an exception, with [N] the number of entries
    of the page-break type: the descriptors are those of the entries that are
    not page breaks, then the email pseudo-field if collected, then, exactly
    when [N > 0], one page-history pseudo-field, whose default is the
    comma-joined decimal numbers 0, 1, ..., N ("0,1,2" for N = 2); when
    [N = 0] the result has no page-history pseudo-field. *)
Theorem page_history_appended v only_required v1 v11 qs v10 flag collect l dss :
  truthy v = true → getitem v 1 = ret v1 → truthy v1 = true →
  getitem v1 1 = ret v11 → truthy v11 = true → iter v11 = ret qs →
  mapM (parse_entry only_required) (List.filter is_question qs) = (l, Ok dss) →
  getitem v1 10 = ret v10 → getitem v10 6 = ret flag → gt_int flag 1 = ret collect →
  let N := length (List.filter is_page_break qs) in
  ∃ parsed,
    parse_form_entries v only_required = (l, Ok (Some parsed)) ∧
    parsed = concat dss ++ (if (collect : bool) then [email_entry] else [])
             ++ match N with O => [] | S _ => [page_history_entry N] end ∧
    List.filter is_page_history_field parsed =
      match N with O => [] | S _ => [page_history_entry N] end ∧
    d_default_value (page_history_entry N) =
      Some (VStr (join (py ",") (map (λ k, str_of_Z (Z.of_nat k)) (seq 0 (N + 1))))) ∧
    page_history 2 = py "0,1,2".
Proof.
  intros Tv G1 Tv1 G11 Tv11 Hq Hm G10 G6 Hc N.
  eexists. split; [|split; [reflexivity|]].
  - rewrite (parse_form_entries_usable _ _ _ _ _ Tv G1 Tv1 G11 Tv11 Hq).
    rewrite Hm. fold N. cbn [bind].
    rewrite G10, bind_ret_l, G6, bind_ret_l, Hc, bind_ret_l. cbn [ret].
    rewrite app_nil_r. destruct N; reflexivity.
  - split; [|split; reflexivity].
    rewrite !List.filter_app.
    unfold is_page_history_field at 1.
    rewrite (filter_pseudo_nil _ _ (mapM_parse_entry_named _ _ _ _ Hm)).
    destruct collect, N; reflexivity.
Qed.

(** C6. For a dump read without an exception whose email-collection flag
    [v[1][10][6]] is the code of mode [m]: the result holds exactly one email
    pseudo-field, required and of id "emailAddress", when [m] is not "do not
    collect", and none when it is; so one for mode 3 and none for mode 1. *)
Theorem email_field_appended v only_required v1 v11 qs v10 m l dss :
  truthy v = true → getitem v 1 = ret v1 → truthy v1 = true →
  getitem v1 1 = ret v11 → truthy v11 = true → iter v11 = ret qs →
  mapM (parse_entry only_required) (List.filter is_question qs) = (l, Ok dss) →
  getitem v1 10 = ret v10 → getitem v10 6 = ret (VInt (mode_flag m)) →
  ∃ parsed,
    parse_form_entries v only_required = (l, Ok (Some parsed)) ∧
    List.filter is_email_field parsed =
      match m with DoNotCollect => [] | _ => [email_entry] end ∧
    d_id email_entry = VStr (py "emailAddress") ∧
    d_required email_entry = VBool true.
Proof.
  intros Tv G1 Tv1 G11 Tv11 Hq Hm G10 G6.
  eexists. split; [|split; [|split; reflexivity]].
  - rewrite (parse_form_entries_usable _ _ _ _ _ Tv G1 Tv1 G11 Tv11 Hq).
    rewrite Hm. cbn [bind].
    rewrite G10, bind_ret_l, G6, bind_ret_l. cbn [gt_int].
    rewrite bind_ret_l. cbn [ret]. rewrite app_nil_r. reflexivity.
  - rewrite !List.filter_app.
    unfold is_email_field at 1.
    rewrite (filter_pseudo_nil _ _ (mapM_parse_entry_named _ _ _ _ Hm)).
    destruct m, (length (List.filter is_page_break qs)); reflexivity.
Qed.


(** C7 (the code departs from the claim). A decoded dump with a single
    element, or one whose second element has a single element, lacks the
    question array; [parse_form_entries] raises [IndexError] on it instead of
    printing the message and returning [None]. *)
Theorem parse_form_entries_short_dump_raises (x y : value) only_required :
  parse_form_entries (VList [x]) only_required = ([], Raise IndexError) ∧
  parse_form_entries (VList [x; VList [y]]) only_required = ([], Raise IndexError).
Proof. split; reflexivity. Qed.

(** C9. An entry whose position 4 holds something that is not a list yields no
    descriptor and one warning, without an exception; and when such an entry,
    not of the page-break type, stands anywhere in the question array, the
    loop goes on with the entries after it with the descriptors and the page
    count it had before it. *)
Theorem parse_entry_skips_malformed only_required entry e4 :
  getitem entry 4 = ret e4 → isinstance_list e4 = false →
  parse_entry only_required entry = ([MsgNotIterable entry], Ok []) ∧
  (is_page_break entry = false →
   ∀ qs1 qs2 parsed_entries page_count,
     entries_loop only_required (qs1 ++ entry :: qs2) parsed_entries page_count =
     (r <- entries_loop only_required qs1 parsed_entries page_count ;;
      print (MsgNotIterable entry) ;;;
      entries_loop only_required qs2 (fst r) (snd r))).
Proof.
  intros G4 Hl. pose proof (parse_entry_not_list only_required _ _ G4 Hl) as Hp.
  split; [exact Hp|].
  intros Hb qs1 qs2 parsed n. rewrite entries_loop_app. apply bind_ext. intros r.
  cbn [entries_loop]. unfold is_page_break in Hb.
  destruct (getitem entry 3) as [l3 [t|e]] eqn:G3.
  - pose proof (getitem_silent _ _ _ _ G3) as ->.
    change ([], Ok t) with (ret t). rewrite bind_ret_l, Hb, Hp.
    cbn [bind print]. rewrite app_nil_r. reflexivity.
  - apply (parse_entry_untyped only_required) in G3. congruence.
Qed.

(** ** The answer resolver *)

Lemma bind_Ok_pair {A B} l (a : A) (k : A -> M B) :
  bind (l, Ok a) k = (l ++ fst (k a), snd (k a)).
Proof. simpl. destruct (k a); reflexivity. Qed.

Lemma list_index_Some x l k :
  list_index x l = Some k →
  l !! k = Some x ∧ ∀ j y, j < k → l !! j = Some y → y ≠ x.
Proof.
  revert k. induction l as [|y l IH]; intros k; simpl; [discriminate|].
  destruct (decide (y = x)) as [->|Hne].
  - intros [= <-]. split; [reflexivity|]. intros; lia.
  - destruct (list_index x l) as [k'|]; [|discriminate]. intros [= <-].
    destruct (IH k' eq_refl) as [Hk Hmin]. split; [exact Hk|].
    intros [|j] z Hj Hz; simpl in Hz.
    + congruence.
    + apply (Hmin j); [lia|exact Hz].
Qed.

Lemma list_index_elem x l : x ∈ l → is_Some (list_index x l).
Proof.
  induction l as [|y l IH]; [intros Hx; inversion Hx|].
  intros Hx. simpl. destruct (decide (y = x)); [eauto|].
  apply elem_of_cons in Hx. destruct Hx as [->|Hx]; [congruence|].
  destruct (IH Hx) as [k ->]. simpl. eauto.
Qed.

Section ResolverFacts.
Context `{Library}.
Variable fill_algorithm : fill_strategy.

Lemma mapM_normalize_text opts :
  mapM normalize_text (map VStr opts) = ret (map normalized opts).
Proof.
  induction opts as [|o opts IH]; [reflexivity|].
  cbn [map mapM]. rewrite IH. reflexivity.
Qed.

Lemma resolve_inv entry l entry' appended :
  resolve fill_algorithm entry = (l, Ok (entry', appended)) →
  ∃ v, entry' = set_default entry v ∧
       (appended = [] ∨
        ∃ s, appended = [other_option_entry entry s] ∧ truthy s = true
             ∧ v = VStr (py "__other_option__")).
Proof.
  unfold resolve. intros Hr. inv_binds Hr.
  destruct (_ && _ && _).
  - destruct (list_index _ _); [|discriminate].
    inv_binds Hr. injection Hr as _ <- <-. eauto.
  - destruct (truthy _ && truthy _) eqn:Ht.
    + injection Hr as _ <- <-. apply andb_prop in Ht. destruct Ht as [Ht _].
      eexists. split; [reflexivity|]. right. eauto.
    + injection Hr as _ <- <-. eauto.
Qed.

Lemma resolve_appended entry l entry' appended :
  resolve fill_algorithm entry = (l, Ok (entry', appended)) →
  Forall (λ x, has_default x = true) appended ∧ length appended ≤ 1.
Proof.
  intros Hr. destruct (resolve_inv _ _ _ _ Hr) as (v & _ & [->|(s & -> & Hs & _)]).
  - split; [constructor|simpl; lia].
  - split; [|simpl; lia]. constructor; [exact Hs|constructor].
Qed.

Lemma fill_loop_skip appended :
  ∀ done fuel,
    Forall (λ x, has_default x = true) appended → length appended < fuel →
    fill_loop fuel fill_algorithm (done ++ appended) (length done)
    = Some (ret (done ++ appended)).
Proof.
  induction appended as [|x xs IH]; intros done fuel F Hf.
  - destruct fuel as [|fuel]; [simpl in Hf; lia|]. cbn [fill_loop].
    rewrite lookup_ge_None_2 by (rewrite app_nil_r; lia). reflexivity.
  - destruct fuel as [|fuel]; [simpl in Hf; lia|]. cbn [fill_loop].
    rewrite list_lookup_middle by reflexivity.
    inversion F as [|? ? Hx F']; subst. rewrite Hx.
    replace (done ++ x :: xs) with ((done ++ [x]) ++ xs) by (rewrite <- app_assoc; reflexivity).
    replace (S (length done)) with (length (done ++ [x])) by (rewrite length_app; simpl; lia).
    apply IH; [exact F'|simpl in Hf; lia].
Qed.

Lemma fill_loop_two_pass rest :
  ∀ done appended fuel,
    Forall (λ x, has_default x = true) appended →
    2 * length rest + length appended < fuel →
    fill_loop fuel fill_algorithm (done ++ rest ++ appended) (length done)
    = Some (r <- resolve_all fill_algorithm rest ;;
            ret (done ++ fst r ++ appended ++ snd r)).
Proof.
  induction rest as [|entry rest IH]; intros done appended fuel F Hf.
  - cbn [app resolve_all]. rewrite bind_ret_l. cbn [fst snd app]. rewrite app_nil_r.
    apply fill_loop_skip; [exact F|simpl in Hf; lia].
  - destruct fuel as [|fuel]; [lia|]. cbn [fill_loop resolve_all].
    rewrite <- app_comm_cons, list_lookup_middle by reflexivity.
    destruct (has_default entry) eqn:Hd.
    + replace (done ++ entry :: rest ++ appended)
        with ((done ++ [entry]) ++ rest ++ appended)
        by (rewrite <- app_assoc; reflexivity).
      replace (S (length done)) with (length (done ++ [entry]))
        by (rewrite length_app; simpl; lia).
      rewrite IH by (assumption || (simpl in Hf; lia)).
      f_equal. rewrite bind_assoc. apply bind_ext. intros r.
      rewrite bind_ret_l. cbn [fst snd]. rewrite <- app_assoc. reflexivity.
    + destruct (resolve fill_algorithm entry) as [l [[entry' xs]|e]] eqn:Hr;
        [|reflexivity].
      destruct (resolve_appended _ _ _ _ Hr) as [Fx Lx].
      rewrite insert_app_r_alt by lia. rewrite Nat.sub_diag. cbn [list_insert insert].
      replace ((done ++ entry' :: rest ++ appended) ++ xs)
        with ((done ++ [entry']) ++ rest ++ (appended ++ xs))
        by (rewrite <- ?app_assoc, <- ?app_comm_cons, <- ?app_assoc; reflexivity).
      replace (S (length done)) with (length (done ++ [entry']))
        by (rewrite length_app; simpl; lia).
      rewrite IH; [|apply Forall_app; split; assumption
                   |rewrite length_app; simpl in Hf; lia].
      cbn [fmap option_fmap option_map]. f_equal.
      rewrite !bind_assoc, bind_Ok_pair. f_equal.
      * f_equal. f_equal. rewrite bind_assoc. apply bind_ext. intros r.
        rewrite bind_ret_l. cbn [fst snd]. rewrite <- !app_assoc. reflexivity.
      * f_equal. rewrite bind_assoc. apply bind_ext. intros r.
        rewrite bind_ret_l. cbn [fst snd]. rewrite <- !app_assoc. reflexivity.
Qed.

Lemma fill_form_entries_two_pass fuel entries :
  2 * length entries < fuel →
  fill_form_entries fuel entries fill_algorithm
  = Some (r <- resolve_all fill_algorithm entries ;; ret (fst r ++ snd r)).
Proof.
  intros Hf. unfold fill_form_entries.
  pose proof (fill_loop_two_pass entries [] [] fuel) as Ht.
  cbn [app length] in Ht. rewrite app_nil_r in Ht.
  rewrite Ht; [reflexivity|constructor|lia].
Qed.

Lemma resolve_all_app es1 es2 :
  resolve_all fill_algorithm (es1 ++ es2) =
  (r1 <- resolve_all fill_algorithm es1 ;;
   r2 <- resolve_all fill_algorithm es2 ;;
   ret (fst r1 ++ fst r2, snd r1 ++ snd r2)).
Proof.
  induction es1 as [|e es1 IH].
  - cbn [app resolve_all]. rewrite bind_ret_l. cbn [fst snd app].
    rewrite <- (bind_ret_r (resolve_all _ es2)) at 1.
    apply bind_ext. intros [a b]. reflexivity.
  - rewrite <- app_comm_cons. cbn [resolve_all]. destruct (has_default e).
    + rewrite IH, !bind_assoc. apply bind_ext. intros r1.
      rewrite bind_ret_l, bind_assoc. apply bind_ext. intros r2.
      rewrite bind_ret_l. reflexivity.
    + rewrite !bind_assoc. apply bind_ext. intros p.
      rewrite IH, !bind_assoc. apply bind_ext. intros r1.
      rewrite bind_ret_l, bind_assoc. apply bind_ext. intros r2.
      rewrite bind_ret_l. cbn [fst snd]. rewrite app_assoc. reflexivity.
Qed.

Lemma resolve_all_defaults xs :
  Forall (λ x, has_default x = true) xs → resolve_all fill_algorithm xs = ret (xs, []).
Proof.
  induction 1 as [|x xs Hx _ IH]; [reflexivity|].
  cbn [resolve_all]. rewrite Hx, IH, bind_ret_l. reflexivity.
Qed.

Lemma resolve_stable entry l entry' appended :
  resolve fill_algorithm entry = (l, Ok (entry', appended)) →
  has_default entry' = false →
  resolve fill_algorithm entry' = (l, Ok (entry', [])).
Proof.
  intros Hr Hd. destruct (resolve_inv _ _ _ _ Hr) as (v & -> & [->|(s & _ & _ & ->)]).
  - exact Hr.
  - discriminate.
Qed.

Lemma resolve_all_shape es :
  ∀ l rs xs,
    resolve_all fill_algorithm es = (l, Ok (rs, xs)) →
    length rs = length es ∧
    ∃ xss, xs = concat xss ∧
           Forall2 (λ e xe, xe = [] ∨
                            ∃ s, has_default e = false ∧ truthy s = true
                                 ∧ xe = [other_option_entry e s]) es xss.
Proof.
  induction es as [|e es IH]; intros l rs xs; cbn [resolve_all].
  - intros [= _ <- <-]. split; [reflexivity|]. exists []. split; [reflexivity|constructor].
  - destruct (has_default e) eqn:Hd; intros Hr.
    + apply bind_Ok_inv in Hr. destruct Hr as (? & [rs' xs'] & ? & Ha & Hr & _).
      injection Hr as _ <- <-.
      destruct (IH _ _ _ Ha) as (Hlen & xss & -> & F).
      split; [simpl; congruence|]. exists ([] :: xss).
      split; [reflexivity|]. constructor; [left; reflexivity|exact F].
    + apply bind_Ok_inv in Hr. destruct Hr as (? & [e' xe] & ? & He & Hr & _).
      apply bind_Ok_inv in Hr. destruct Hr as (? & [rs' xs'] & ? & Ha & Hr & _).
      injection Hr as _ <- <-.
      destruct (IH _ _ _ Ha) as (Hlen & xss & -> & F).
      split; [simpl; congruence|]. exists (xe :: xss).
      split; [reflexivity|]. constructor; [|exact F].
      destruct (resolve_inv _ _ _ _ He) as (v & _ & [->|(s & -> & Hs & _)]);
        [left; reflexivity|right; eauto].
Qed.

Lemma resolve_all_appended es l rs xs :
  resolve_all fill_algorithm es = (l, Ok (rs, xs)) →
  Forall (λ x, has_default x = true) xs.
Proof.
  intros Hr. destruct (resolve_all_shape _ _ _ _ Hr) as (_ & xss & -> & F).
  clear Hr. induction F as [|e xe es xss Hx _ IH]; [constructor|].
  simpl. apply Forall_app. split; [|exact IH].
  destruct Hx as [->|(s & _ & Hs & ->)]; [constructor|].
  constructor; [exact Hs|constructor].
Qed.

Lemma resolve_all_again es :
  ∀ l rs xs,
    resolve_all fill_algorithm es = (l, Ok (rs, xs)) →
    ∃ l', resolve_all fill_algorithm rs = (l', Ok (rs, [])).
Proof.
  induction es as [|e es IH]; intros l rs xs; cbn [resolve_all].
  - intros [= _ <- <-]. exists []. reflexivity.
  - destruct (has_default e) eqn:Hd; intros Hr.
    + apply bind_Ok_inv in Hr. destruct Hr as (? & [rs' xs'] & ? & Ha & Hr & _).
      injection Hr as _ <- <-.
      destruct (IH _ _ _ Ha) as [l' Hl']. cbn [fst resolve_all].
      rewrite Hd, Hl'. eexists. reflexivity.
    + apply bind_Ok_inv in Hr. destruct Hr as (? & [e' xe] & ? & He & Hr & _).
      apply bind_Ok_inv in Hr. destruct Hr as (? & [rs' xs'] & ? & Ha & Hr & _).
      injection Hr as _ <- <-.
      destruct (IH _ _ _ Ha) as [l' Hl']. cbn [fst resolve_all].
      destruct (has_default e') eqn:Hd'.
      * rewrite Hl'. eexists. reflexivity.
      * rewrite (resolve_stable _ _ _ _ He Hd'), Hl'. eexists. reflexivity.
Qed.

Lemma resolve_str_options entry opts cand lf :
  d_options entry = Some (VList (map VStr opts)) →
  fill_algorithm (d_type entry) (d_id entry) (VList (map VStr opts))
    (d_required entry) (d_container_name entry) = (lf, Ok (VStr cand)) →
  resolve fill_algorithm entry =
  bind (lf ++ [MsgComparing (normalized cand) (map normalized opts)], Ok tt)
    (λ _,
       if truthy (VStr cand) && truthy (VList (map VStr opts))
          && bool_decide (normalized cand ∈ map normalized opts) then
         match list_index (normalized cand) (map normalized opts) with
         | Some k =>
             original_value <- getitem (VList (map VStr opts)) k ;;
             ret (set_default entry original_value, [])
         | None => raise ValueError
         end
       else if truthy (VStr cand) && truthy (VList (map VStr opts)) then
         ret (set_default entry (VStr (py "__other_option__")),
              [other_option_entry entry (VStr cand)])
       else ret (set_default entry (VStr cand), [])).
Proof.
  intros Ho Hf. unfold resolve. rewrite Ho, bind_ret_l.
  replace (if truthy (VList (map VStr opts)) then VList (map VStr opts) else VList [])
    with (VList (map VStr opts)) by (destruct opts; reflexivity).
  cbn [slice_all]. rewrite bind_ret_l, Hf.
  rewrite (bind_Ok_pair lf). cbn [iter].
  rewrite bind_ret_l, mapM_normalize_text, bind_ret_l.
  unfold normalize_text. cbn [as_str]. rewrite !bind_ret_l.
  unfold print. rewrite !bind_Ok_pair. cbn [fst snd].
  rewrite app_assoc. reflexivity.
Qed.

Lemma resolve_match entry opts cand lf :
  d_options entry = Some (VList (map VStr opts)) →
  fill_algorithm (d_type entry) (d_id entry) (VList (map VStr opts))
    (d_required entry) (d_container_name entry) = (lf, Ok (VStr cand)) →
  cand ≠ [] →
  normalized cand ∈ map normalized opts →
  ∃ k o,
    opts !! k = Some o ∧ normalized o = normalized cand ∧
    (∀ j o', j < k → opts !! j = Some o' → normalized o' ≠ normalized cand) ∧
    resolve fill_algorithm entry =
      (lf ++ [MsgComparing (normalized cand) (map normalized opts)],
       Ok (set_default entry (VStr o), [])).
Proof.
  intros Ho Hf Hc Hin.
  destruct (list_index_elem _ _ Hin) as [k Hk].
  destruct (list_index_Some _ _ _ Hk) as [Hnk Hmin].
  rewrite list_lookup_fmap in Hnk.
  destruct (opts !! k) as [o|] eqn:Hok; [|discriminate].
  injection Hnk as Hno.
  exists k, o. split; [exact Hok|]. split; [exact Hno|]. split.
  - intros j o' Hj Hj'. apply (Hmin j); [exact Hj|].
    rewrite list_lookup_fmap, Hj'. reflexivity.
  - rewrite (resolve_str_options _ _ _ _ Ho Hf), Hk.
    assert (truthy (VStr cand) = true) as ->
      by (destruct cand; [destruct Hc|]; reflexivity).
    assert (truthy (VList (map VStr opts)) = true) as ->
      by (destruct opts; [inversion Hin|reflexivity]).
    rewrite bool_decide_eq_true_2 by exact Hin.
    cbn [andb getitem]. rewrite list_lookup_fmap, Hok. cbn [fmap option_fmap option_map].
    rewrite bind_ret_l, bind_Ok_pair. cbn [ret fst snd]. rewrite app_nil_r. reflexivity.
Qed.

Lemma resolve_other entry opts cand lf :
  d_options entry = Some (VList (map VStr opts)) →
  fill_algorithm (d_type entry) (d_id entry) (VList (map VStr opts))
    (d_required entry) (d_container_name entry) = (lf, Ok (VStr cand)) →
  cand ≠ [] → opts ≠ [] →
  normalized cand ∉ map normalized opts →
  resolve fill_algorithm entry =
    (lf ++ [MsgComparing (normalized cand) (map normalized opts)],
     Ok (set_default entry (VStr (py "__other_option__")),
         [other_option_entry entry (VStr cand)])).
Proof.
  intros Ho Hf Hc Hn Hin.
  rewrite (resolve_str_options _ _ _ _ Ho Hf).
  assert (truthy (VStr cand) = true) as ->
      by (destruct cand; [destruct Hc|]; reflexivity).
  assert (truthy (VList (map VStr opts)) = true) as ->
    by (destruct opts; [destruct Hn|]; reflexivity).
  rewrite bool_decide_eq_false_2 by exact Hin.
  cbn [andb]. rewrite bind_Ok_pair. cbn [ret fst snd]. rewrite app_nil_r. reflexivity.
Qed.

Lemma fill_form_entries_resolved_at entry l entry' appended es1 es2 fuel :
  has_default entry = false →
  resolve fill_algorithm entry = (l, Ok (entry', appended)) →
  2 * length (es1 ++ entry :: es2) < fuel →
  fill_form_entries fuel (es1 ++ entry :: es2) fill_algorithm =
  Some (r1 <- resolve_all fill_algorithm es1 ;;
        (l, Ok tt) ;;;
        r2 <- resolve_all fill_algorithm es2 ;;
        ret (fst r1 ++ entry' :: fst r2 ++ snd r1 ++ appended ++ snd r2)).
Proof.
  intros Hd Hr Hf. rewrite fill_form_entries_two_pass by exact Hf. f_equal.
  rewrite resolve_all_app, bind_assoc. apply bind_ext. intros r1.
  cbn [resolve_all]. rewrite Hd, Hr, !bind_assoc, !bind_Ok_pair. f_equal.
  - f_equal. f_equal. rewrite !bind_assoc. apply bind_ext. intros r2.
    rewrite !bind_ret_l. cbn [fst snd]. rewrite <- !app_assoc. reflexivity.
  - f_equal. rewrite !bind_assoc. apply bind_ext. intros r2.
    rewrite !bind_ret_l. cbn [fst snd]. rewrite <- !app_assoc. reflexivity.
Qed.

Lemma fill_form_entries_skipped_at entry es1 es2 fuel :
  has_default entry = true →
  2 * length (es1 ++ entry :: es2) < fuel →
  fill_form_entries fuel (es1 ++ entry :: es2) fill_algorithm =
  Some (r1 <- resolve_all fill_algorithm es1 ;;
        r2 <- resolve_all fill_algorithm es2 ;;
        ret (fst r1 ++ entry :: fst r2 ++ snd r1 ++ snd r2)).
Proof.
  intros Hd Hf. rewrite fill_form_entries_two_pass by exact Hf. f_equal.
  rewrite resolve_all_app, bind_assoc. apply bind_ext. intros r1.
  cbn [resolve_all]. rewrite Hd, !bind_assoc. apply bind_ext. intros r2.
  rewrite !bind_ret_l. cbn [fst snd]. rewrite <- !app_assoc. reflexivity.
Qed.

(** C2 (as amended). For a descriptor without a default whose options are a
    list of strings, when the fill strategy answers a non-empty string whose
    normalisation is the normalisation of some option: the descriptor's
    default becomes the original text of the first option that matches, and
    the descriptor adds nothing to the entries appended to the list. *)
Theorem matching_option_stored entry opts cand lf es1 es2 fuel :
  has_default entry = false →
  d_options entry = Some (VList (map VStr opts)) →
  fill_algorithm (d_type entry) (d_id entry) (VList (map VStr opts))
    (d_required entry) (d_container_name entry) = (lf, Ok (VStr cand)) →
  cand ≠ [] →
  normalized cand ∈ map normalized opts →
  2 * length (es1 ++ entry :: es2) < fuel →
  ∃ k o,
    opts !! k = Some o ∧ normalized o = normalized cand ∧
    (∀ j o', j < k → opts !! j = Some o' → normalized o' ≠ normalized cand) ∧
    fill_form_entries fuel (es1 ++ entry :: es2) fill_algorithm =
    Some (r1 <- resolve_all fill_algorithm es1 ;;
          (lf ++ [MsgComparing (normalized cand) (map normalized opts)], Ok tt) ;;;
          r2 <- resolve_all fill_algorithm es2 ;;
          ret (fst r1 ++ set_default entry (VStr o) :: fst r2 ++ snd r1 ++ snd r2)).
Proof.
  intros Hd Ho Hf Hc Hin Hfuel.
  destruct (resolve_match _ _ _ _ Ho Hf Hc Hin) as (k & o & Hk & Hno & Hmin & Hr).
  exists k, o. repeat split; try assumption.
  rewrite (fill_form_entries_resolved_at _ _ _ _ _ _ _ Hd Hr Hfuel). reflexivity.
Qed.

(** C3 (as amended). For a descriptor without a default whose options are a
    non-empty list of strings, when the fill strategy answers a non-empty
    string whose normalisation is the normalisation of no option: the
    descriptor's default becomes "__other_option__" and exactly one descriptor
    is appended for it, of id "<id>.other_option_response", type "text", the
    same required flag, and the answer as given as its default. *)
Theorem unmatched_answer_appends_other entry opts cand lf es1 es2 fuel :
  has_default entry = false →
  d_options entry = Some (VList (map VStr opts)) →
  fill_algorithm (d_type entry) (d_id entry) (VList (map VStr opts))
    (d_required entry) (d_container_name entry) = (lf, Ok (VStr cand)) →
  cand ≠ [] → opts ≠ [] →
  normalized cand ∉ map normalized opts →
  2 * length (es1 ++ entry :: es2) < fuel →
  let other := other_option_entry entry (VStr cand) in
  fill_form_entries fuel (es1 ++ entry :: es2) fill_algorithm =
    Some (r1 <- resolve_all fill_algorithm es1 ;;
          (lf ++ [MsgComparing (normalized cand) (map normalized opts)], Ok tt) ;;;
          r2 <- resolve_all fill_algorithm es2 ;;
          ret (fst r1 ++ set_default entry (VStr (py "__other_option__")) :: fst r2
               ++ snd r1 ++ [other] ++ snd r2)) ∧
  d_id other = VStr (py_str (d_id entry) ++ py ".other_option_response") ∧
  d_type other = VStr (py "text") ∧
  d_required other = d_required entry ∧
  d_default_value other = Some (VStr cand).
Proof.
  intros Hd Ho Hf Hc Hn Hin Hfuel other.
  pose proof (resolve_other _ _ _ _ Ho Hf Hc Hn Hin) as Hr.
  rewrite (fill_form_entries_resolved_at _ _ _ _ _ _ _ Hd Hr Hfuel).
  repeat split; reflexivity.
Qed.

(** C4 (as amended). A descriptor whose default is set and truthy is left as
    it is by the resolver and adds no appended descriptor; and running the
    resolver, with the same fill strategy, on the list a run returned returns
    that list again. *)
Theorem resolver_idempotent :
  (∀ entry es1 es2 fuel,
     has_default entry = true →
     2 * length (es1 ++ entry :: es2) < fuel →
     fill_form_entries fuel (es1 ++ entry :: es2) fill_algorithm =
     Some (r1 <- resolve_all fill_algorithm es1 ;;
           r2 <- resolve_all fill_algorithm es2 ;;
           ret (fst r1 ++ entry :: fst r2 ++ snd r1 ++ snd r2))) ∧
  (∀ entries fuel l entries',
     2 * length entries < fuel →
     fill_form_entries fuel entries fill_algorithm = Some (l, Ok entries') →
     ∀ fuel', 2 * length entries' < fuel' →
       ∃ l', fill_form_entries fuel' entries' fill_algorithm = Some (l', Ok entries')).
Proof.
  split.
  - intros entry es1 es2 fuel Hd Hf. apply fill_form_entries_skipped_at; assumption.
  - intros entries fuel l entries' Hf Hrun fuel' Hf'.
    rewrite fill_form_entries_two_pass in Hrun by exact Hf.
    injection Hrun as Hrun. apply bind_Ok_inv in Hrun.
    destruct Hrun as (l1 & [rs xs] & l2 & Hall & Hret & _).
    injection Hret as _ <-. cbn [fst snd] in *.
    rewrite fill_form_entries_two_pass by exact Hf'.
    destruct (resolve_all_again _ _ _ _ Hall) as [l' Hl'].
    rewrite resolve_all_app, Hl'.
    rewrite (resolve_all_defaults _ (resolve_all_appended _ _ _ _ Hall)).
    exists l'. cbn [bind ret fst snd app]. rewrite !app_nil_r. reflexivity.
Qed.

(** C10. With fuel above twice the length of the list the loop ends, and it
    returns what the two-pass reading returns: the entries of the given list,
    each resolved at most once, followed by the appended descriptors. Every
    appended descriptor carries a truthy default, so the loop passes over it;
    each comes from one entry of the given list, which had no default, and an
    entry of the given list has at most one. *)
Theorem appended_entries_never_resolved entries fuel :
  2 * length entries < fuel →
  fill_form_entries fuel entries fill_algorithm =
    Some (r <- resolve_all fill_algorithm entries ;; ret (fst r ++ snd r)) ∧
  ∀ l entries',
    fill_form_entries fuel entries fill_algorithm = Some (l, Ok entries') →
    ∃ rs xss,
      entries' = rs ++ concat xss ∧ length rs = length entries ∧
      Forall2 (λ e xe, xe = [] ∨
                       ∃ s, has_default e = false ∧ truthy s = true
                            ∧ xe = [other_option_entry e s]) entries xss ∧
      Forall (λ x, has_default x = true) (concat xss).
Proof.
  intros Hf. pose proof (fill_form_entries_two_pass fuel entries Hf) as Ht.
  split; [exact Ht|].
  intros l entries' Hrun. rewrite Ht in Hrun. injection Hrun as Hrun.
  apply bind_Ok_inv in Hrun. destruct Hrun as (l1 & [rs xs] & l2 & Hall & Hret & _).
  injection Hret as _ <-. cbn [fst snd].
  destruct (resolve_all_shape _ _ _ _ Hall) as (Hlen & xss & -> & F).
  exists rs, xss. repeat split; try assumption.
  eapply resolve_all_appended, Hall.
Qed.

End ResolverFacts.

(** ** The comparison normalisation *)

Lemma replace_curly_dead (s : text) :
  replace_char 8217 39 (encode_ascii_ignore s) = encode_ascii_ignore s.
Proof.
  unfold encode_ascii_ignore. induction s as [|c s IH]; [reflexivity|].
  cbn [List.filter]. destruct (N.ltb_spec c 128) as [Hc|Hc]; [|exact IH].
  cbn [replace_char map]. fold (replace_char 8217 39 (List.filter (λ c, (c <? 128)%N) s)).
  rewrite IH. destruct (N.eqb_spec c 8217) as [->|_]; [lia|reflexivity].
Qed.

Section Normalisation.
Context `{Library}.

(** C1 (the code departs from the claim). With the NFKD of Unicode, which
    has no decomposition for U+2019 and none for ASCII characters, [don’t]
    normalises to "dont": the curly apostrophe is dropped with the other
    non-ASCII characters before the replacement that should fold it is
    reached. [don't] normalises to "don't", so the two do not compare equal. *)
Theorem curly_apostrophe_dropped :
  nfkd dont_curly = dont_curly → nfkd (py "don't") = py "don't" →
  normalize_text (VStr dont_curly) = ret (py "dont") ∧
  normalize_text (VStr (py "don't")) = ret (py "don't") ∧
  normalize_text (VStr dont_curly) ≠ normalize_text (VStr (py "don't")).
Proof.
  intros Hc Hs.
  assert (normalize_text (VStr dont_curly) = ret (py "dont")) as E1
    by (unfold normalize_text, normalized; cbn [as_str]; rewrite bind_ret_l, Hc; reflexivity).
  assert (normalize_text (VStr (py "don't")) = ret (py "don't")) as E2
    by (unfold normalize_text, normalized; cbn [as_str]; rewrite bind_ret_l, Hs; reflexivity).
  split; [exact E1|]. split; [exact E2|]. rewrite E1, E2. discriminate.
Qed.

(** The parts of the claim the code keeps: an accented letter compares equal
    to the plain one, and a backtick to the straight apostrophe. *)
Lemma accents_and_backticks_folded :
  nfkd cafe_accented = [67; 97; 102; 101; 769]%N → nfkd (py "cafe") = py "cafe" →
  nfkd dont_backtick = dont_backtick → nfkd (py "don't") = py "don't" →
  normalize_text (VStr cafe_accented) = normalize_text (VStr (py "cafe")) ∧
  normalize_text (VStr dont_backtick) = normalize_text (VStr (py "don't")).
Proof.
  intros H1 H2 H3 H4. unfold normalize_text, normalized. cbn [as_str].
  rewrite !bind_ret_l, H1, H2, H3, H4. split; reflexivity.
Qed.

End Normalisation.

(** ** Sample runs *)

Lemma curly_apostrophe_dropped_sample :
  @normalize_text test_library (VStr dont_curly) = ret (py "dont") ∧
  @normalize_text test_library (VStr (py "don't")) = ret (py "don't") ∧
  @normalize_text test_library (VStr dont_curly)
    ≠ @normalize_text test_library (VStr (py "don't")).
Proof. apply (@curly_apostrophe_dropped test_library); reflexivity. Defined.

(** Options Red, Green, Blue and the answer "blue": "Blue" is stored and
    nothing is appended. *)
Lemma matching_option_stored_sample :
  @fill_form_entries test_library 3 [rgb_field] (constant_answer (py "blue"))
  = Some ([MsgComparing (py "blue") [py "red"; py "green"; py "blue"]],
          Ok [set_default rgb_field (VStr (py "Blue"))]).
Proof.
  destruct (@matching_option_stored test_library (constant_answer (py "blue"))
              rgb_field [py "Red"; py "Green"; py "Blue"] (py "blue") [] [] [] 3)
    as (k & o & Hk & Hno & _ & Hrun).
  - reflexivity.
  - reflexivity.
  - reflexivity.
  - discriminate.
  - apply (list_elem_of_lookup_2 _ 2). reflexivity.
  - simpl. lia.
  - destruct k as [|[|[|k]]]; cbn in Hk; try discriminate;
      injection Hk as <-; vm_compute in Hno; try discriminate.
    exact Hrun.
Defined.

(** Options Red, Green and the answer "Purple": the sentinel is stored and
    one descriptor of id "1001.other_option_response" is appended. *)
Lemma unmatched_answer_appends_other_sample :
  @fill_form_entries test_library 3 [red_green_field] (constant_answer (py "Purple"))
  = Some ([MsgComparing (py "purple") [py "red"; py "green"]],
          Ok [set_default red_green_field (VStr (py "__other_option__"));
              {| d_id := VStr (py "1001.other_option_response");
                 d_container_name := VStr (py "Colour (Other)");
                 d_type := VStr (py "text"); d_required := VBool true;
                 d_name := None; d_options := None;
                 d_default_value := Some (VStr (py "Purple")) |}]).
Proof.
  destruct (@unmatched_answer_appends_other test_library (constant_answer (py "Purple"))
              red_green_field [py "Red"; py "Green"] (py "Purple") [] [] [] 3)
    as (Hrun & _).
  - reflexivity.
  - reflexivity.
  - reflexivity.
  - discriminate.
  - discriminate.
  - assert (bool_decide (normalized (py "Purple")
                           ∈ map normalized [py "Red"; py "Green"]) = false) as Hb
      by (vm_compute; reflexivity).
    apply bool_decide_eq_false_1 in Hb. exact Hb.
  - simpl. lia.
  - exact Hrun.
Defined.

(** C2, as stated, fails: the option "Да" and the empty answer have the same
    normalisation, the empty string, yet the empty answer is stored, not the
    option. *)
Lemma empty_answer_not_matched :
  has_default da_field = false ∧
  d_options da_field = Some (VList [VStr da_cyrillic]) ∧
  (@normalized test_library [] ∈ map (@normalized test_library) [da_cyrillic]) ∧
  @fill_form_entries test_library 3 [da_field] (constant_answer [])
    = Some ([MsgComparing [] [[]]], Ok [set_default da_field (VStr [])]) ∧
  ¬ ∃ l, @fill_form_entries test_library 3 [da_field] (constant_answer [])
         = Some (l, Ok [set_default da_field (VStr da_cyrillic)]).
Proof.
  split; [reflexivity|]. split; [reflexivity|]. split.
  - apply (list_elem_of_lookup_2 _ 0). reflexivity.
  - split; [reflexivity|]. intros [l Hl]. vm_compute in Hl. discriminate.
Qed.

(** C3, as stated, fails: the empty answer matches neither Red nor Green, yet
    the default is the empty answer, not the sentinel, and nothing is
    appended. *)
Lemma empty_answer_appends_nothing :
  has_default red_green_field = false ∧
  (@normalized test_library [] ∉ map (@normalized test_library) [py "Red"; py "Green"]) ∧
  @fill_form_entries test_library 3 [red_green_field] (constant_answer [])
    = Some ([MsgComparing [] [py "red"; py "green"]],
            Ok [set_default red_green_field (VStr [])]) ∧
  ¬ ∃ l rest, @fill_form_entries test_library 3 [red_green_field] (constant_answer [])
              = Some (l, Ok (set_default red_green_field (VStr (py "__other_option__"))
                             :: rest)).
Proof.
  split; [reflexivity|]. split.
  - assert (bool_decide (@normalized test_library []
                           ∈ map normalized [py "Red"; py "Green"]) = false) as Hb
      by (vm_compute; reflexivity).
    apply bool_decide_eq_false_1 in Hb. exact Hb.
  - split; [reflexivity|]. intros (l & rest & Hl). vm_compute in Hl. discriminate.
Qed.

(** C4, as stated, fails: a descriptor that carries the default "" (a short
    answer the resolver left empty) is resolved again, and its default is
    overwritten with the answer of the fill strategy. *)
Lemma empty_default_overwritten :
  d_default_value (answered_text_field []) = Some (VStr []) ∧
  @fill_form_entries test_library 3 [answered_text_field []] (constant_answer (py "x"))
    = Some ([MsgComparing (py "x") []], Ok [answered_text_field (py "x")]) ∧
  answered_text_field (py "x") ≠ answered_text_field [].
Proof. split; [reflexivity|]. split; [reflexivity|discriminate]. Qed.

(** A descriptor with a truthy default is passed over, and a second run
    returns the list of the first. *)
Lemma resolver_idempotent_sample :
  @fill_form_entries test_library 3 [page_history_entry 2] (constant_answer (py "x"))
    = Some ([], Ok [page_history_entry 2]) ∧
  ∃ l', @fill_form_entries test_library 5
          [set_default red_green_field (VStr (py "__other_option__"));
           @other_option_entry test_library red_green_field (VStr (py "Purple"))]
          (constant_answer (py "Purple"))
        = Some (l', Ok [set_default red_green_field (VStr (py "__other_option__"));
                        @other_option_entry test_library red_green_field
                          (VStr (py "Purple"))]).
Proof.
  split.
  - apply (proj1 (@resolver_idempotent test_library (constant_answer (py "x")))
             (page_history_entry 2) [] [] 3); [reflexivity|simpl; lia].
  - apply (proj2 (@resolver_idempotent test_library (constant_answer (py "Purple")))
             [red_green_field] 3
             [MsgComparing (py "purple") [py "red"; py "green"]]);
      [simpl; lia|reflexivity|simpl; lia].
Defined.

(** The loop ends on a list of one entry with fuel 3. *)
Lemma appended_entries_never_resolved_sample :
  2 * length [red_green_field] < 3 ∧
  is_Some (@fill_form_entries test_library 3 [red_green_field]
             (constant_answer (py "Purple"))).
Proof.
  assert (2 * length [red_green_field] < 3) as Hf by (simpl; lia).
  split; [exact Hf|].
  rewrite (proj1 (@appended_entries_never_resolved test_library
                    (constant_answer (py "Purple")) [red_green_field] 3 Hf)).
  eexists. reflexivity.
Defined.

(** Two page breaks among four entries, email not collected: one page-history
    pseudo-field with default "0,1,2". *)
Lemma page_history_appended_sample :
  ∃ l parsed,
    parse_form_entries
      (sample_dump [short_answer_entry; page_break_entry; choice_entry; page_break_entry] 1)
      false = (l, Ok (Some parsed)) ∧
    List.filter is_page_history_field parsed = [page_history_entry 2] ∧
    d_default_value (page_history_entry 2) = Some (VStr (py "0,1,2")).
Proof.
  edestruct (page_history_appended
               (sample_dump [short_answer_entry; page_break_entry; choice_entry;
                             page_break_entry] 1) false)
    as (parsed & Hrun & _ & Hfilter & Hdefault & _);
    [reflexivity|reflexivity|reflexivity|reflexivity|reflexivity|reflexivity
    |reflexivity|reflexivity|reflexivity|reflexivity|].
  eexists _, parsed. split; [exact Hrun|]. split; [exact Hfilter|exact Hdefault].
Defined.

(** Mode 3: one email pseudo-field; mode 1: none. *)
Lemma email_field_appended_sample :
  (∃ l parsed,
     parse_form_entries (sample_dump [short_answer_entry] 3) false = (l, Ok (Some parsed)) ∧
     List.filter is_email_field parsed = [email_entry]) ∧
  (∃ l parsed,
     parse_form_entries (sample_dump [short_answer_entry] 1) false = (l, Ok (Some parsed)) ∧
     List.filter is_email_field parsed = []).
Proof.
  split.
  - edestruct (email_field_appended (sample_dump [short_answer_entry] 3) false)
      with (m := ResponderInput)
      as (parsed & Hrun & Hfilter & _);
      [reflexivity|reflexivity|reflexivity|reflexivity|reflexivity|reflexivity
      |reflexivity|reflexivity|reflexivity|].
    eexists _, parsed. split; [exact Hrun|exact Hfilter].
  - edestruct (email_field_appended (sample_dump [short_answer_entry] 1) false)
      with (m := DoNotCollect)
      as (parsed & Hrun & Hfilter & _);
      [reflexivity|reflexivity|reflexivity|reflexivity|reflexivity|reflexivity
      |reflexivity|reflexivity|reflexivity|].
    eexists _, parsed. split; [exact Hrun|exact Hfilter].
Defined.

(** An entry whose position 4 is [null] is skipped with a warning, and the
    entries around it are parsed as without it. *)
Lemma parse_entry_skips_malformed_sample :
  parse_entry false heading_entry = ([MsgNotIterable heading_entry], Ok []) ∧
  entries_loop false [short_answer_entry; heading_entry; choice_entry] [] 0 =
  (r <- entries_loop false [short_answer_entry] [] 0 ;;
   print (MsgNotIterable heading_entry) ;;;
   entries_loop false [choice_entry] (fst r) (snd r)).
Proof.
  destruct (parse_entry_skips_malformed false heading_entry VNone eq_refl eq_refl)
    as [Hskip Hloop].
  split; [exact Hskip|].
  exact (Hloop eq_refl [short_answer_entry] [choice_entry] [] 0).
Defined.

(** The literal in a page, decoded; a literal that is not JSON; and a
    literal that holds an integer of 4301 digits, which is JSON. *)
Lemma extract_script_variables_sample :
  @extract_script_variables test_library ALL_DATA_FIELDS
    (py "<script>var FB_PUBLIC_LOAD_DATA_ = [null,[1,2]];</script>")
  = ret (VList [VNone; VList [VInt 1; VInt 2]]) ∧
  @extract_script_variables test_library ALL_DATA_FIELDS
    (py "<script>var FB_PUBLIC_LOAD_DATA_ = [null,[1,2];</script>")
  = ([MsgJsonError (py "Expecting value")], Ok VNone) ∧
  @extract_script_variables test_library ALL_DATA_FIELDS
    (py "<script>var FB_PUBLIC_LOAD_DATA_ = [" ++ repeat 49%N 4301 ++ py "];</script>")
  = raise ValueError.
Proof.
  split; [|split].
  - apply (proj1 (proj2 (@extract_script_variables_spec test_library ALL_DATA_FIELDS _))
             (py "[null,[1,2]]")).
    apply regex_search_found. reflexivity.
  - apply (proj1 (proj2 (@extract_script_variables_spec test_library ALL_DATA_FIELDS _))
             (py "[null,[1,2]")).
    apply regex_search_found. reflexivity.
  - apply (proj2 (proj2 (proj2
             (@extract_script_variables_spec test_library ALL_DATA_FIELDS _)))
             (91%N :: repeat 49%N 4301 ++ [93%N]) ValueError).
    + apply regex_search_found. vm_compute. reflexivity.
    + vm_compute. reflexivity.
Defined.

(** ** The response URL *)

Lemma endswith_spec s suffix : endswith s suffix = true ↔ ∃ pre, s = pre ++ suffix.
Proof.
  unfold endswith. split.
  - destruct (strip_prefix (rev suffix) (rev s)) as [r|] eqn:Hs; [|discriminate].
    intros _. apply strip_prefix_Some in Hs. exists (rev r).
    apply (f_equal (@rev N)) in Hs. rewrite rev_involutive, rev_app_distr, rev_involutive in Hs.
    exact Hs.
  - intros [pre ->]. rewrite rev_app_distr, strip_prefix_app. reflexivity.
Qed.

Lemma replace_from_skip old new p s :
  replace_from old new (length p) (p ++ s) = replace_from old new 0 s.
Proof.
  induction p as [|c p IH]; [reflexivity|].
  cbn [length app replace_from]. exact IH.
Qed.

Lemma str_replace_unfold o old new s :
  str_replace (o :: old) new s =
  match strip_prefix (o :: old) s with
  | Some rest => new ++ str_replace (o :: old) new rest
  | None =>
      match s with
      | [] => []
      | c :: s' => c :: str_replace (o :: old) new s'
      end
  end.
Proof.
  unfold str_replace. destruct s as [|c s]; [reflexivity|].
  cbn [replace_from].
  destruct (strip_prefix (o :: old) (c :: s)) as [rest|] eqn:Hs; [|reflexivity].
  apply strip_prefix_Some in Hs. injection Hs as -> ->.
  match goal with
  | |- context [length ?l - 1] => replace (length l - 1) with (length old) by (simpl; lia)
  end.
  rewrite replace_from_skip. reflexivity.
Qed.

Section ResponseUrl.

Let viewform : text := py "/viewform".
Let formResponse : text := py "/formResponse".
Let R : text → text := str_replace viewform formResponse.

Lemma viewform_unfold s :
  R s =
  match strip_prefix viewform s with
  | Some rest => formResponse ++ R rest
  | None =>
      match s with
      | [] => []
      | c :: s' => c :: R s'
      end
  end.
Proof. exact (str_replace_unfold 47%N (py "viewform") formResponse s). Qed.

Let viewform_tail : text := [118; 105; 101; 119; 102; 111; 114; 109]%N.

Lemma viewform_head : viewform = 47%N :: viewform_tail.
Proof. reflexivity. Qed.

Lemma viewform_tail_slashless : 47%N ∉ viewform_tail.
Proof.
  intros Hin. unfold viewform_tail in Hin.
  repeat match goal with
         | Hx : _ ∈ _ :: _ |- _ => apply elem_of_cons in Hx; destruct Hx as [Hx|Hx]
         | Hx : _ ∈ [] |- _ => inversion Hx
         | Hx : _ = _ |- _ => discriminate Hx
         end.
Qed.

Lemma viewform_slash_first a k : viewform = a ++ 47%N :: k → a = [].
Proof.
  destruct a as [|x a]; [reflexivity|].
  rewrite viewform_head. intros E. injection E as _ E.
  destruct viewform_tail_slashless. rewrite E. apply elem_of_app. right. left.
Qed.

Lemma viewform_at_slash a b rest :
  strip_prefix viewform (a ++ 47%N :: b) = Some rest →
  a = [] ∨ ∃ rest', strip_prefix viewform a = Some rest' ∧ rest = rest' ++ 47%N :: b.
Proof.
  intros Hs. apply strip_prefix_Some in Hs.
  apply app_eq_inv in Hs. destruct Hs as [(k & -> & Hk)|(k & Hv & Hk)].
  - right. exists k. split; [apply strip_prefix_app|exact Hk].
  - destruct k as [|x k].
    + right. exists []. rewrite app_nil_r in Hv. subst a.
      split; [apply strip_prefix_Some; rewrite app_nil_r; reflexivity|].
      simpl in Hk. simpl. congruence.
    + injection Hk as <- _. left. eapply viewform_slash_first, Hv.
Qed.

Lemma viewform_split a :
  ∀ b, R (a ++ 47%N :: b) = R a ++ R (47%N :: b).
Proof.
  induction a as [a IH] using (induction_ltof1 _ (@length N)). unfold ltof in IH.
  intros b. destruct a as [|c a]; [reflexivity|].
  rewrite (viewform_unfold ((c :: a) ++ 47%N :: b)), (viewform_unfold (c :: a)).
  destruct (strip_prefix viewform ((c :: a) ++ 47%N :: b)) as [rest|] eqn:Hs.
  - destruct (viewform_at_slash _ _ _ Hs) as [E|(rest' & Hs' & ->)]; [discriminate|].
    rewrite Hs'. apply strip_prefix_Some in Hs'.
    rewrite IH, app_assoc; [reflexivity|].
    rewrite Hs', length_app. simpl. lia.
  - destruct (strip_prefix viewform (c :: a)) as [rest'|] eqn:Hs'.
    + apply strip_prefix_Some in Hs'. rewrite Hs', <- app_assoc, strip_prefix_app in Hs.
      discriminate.
    + rewrite <- !app_comm_cons. f_equal. apply IH. simpl. lia.
Qed.

Lemma viewform_after_replacement t : R (formResponse ++ t) = formResponse ++ R t.
Proof. reflexivity. Qed.

Lemma viewform_prefix_kept p :
  ∀ s t, 47%N ∉ p → R s = p ++ t → ∃ t', s = p ++ t'.
Proof.
  induction p as [|x p IH]; intros s t Hp E; [eauto|].
  rewrite viewform_unfold in E.
  destruct (strip_prefix viewform s) as [rest|].
  - injection E as <- _. destruct Hp. left.
  - destruct s as [|y s]; [discriminate|]. injection E as -> E.
    destruct (IH s t) as [t' ->]; [|exact E|eauto].
    intros Hin. apply Hp. right. exact Hin.
Qed.

Lemma viewform_replaced_once s : R (R s) = R s.
Proof.
  induction s as [s IH] using (induction_ltof1 _ (@length N)). unfold ltof in IH.
  rewrite (viewform_unfold s).
  destruct (strip_prefix viewform s) as [rest|] eqn:Hs.
  - apply strip_prefix_Some in Hs. rewrite viewform_after_replacement, IH; [reflexivity|].
    rewrite Hs, length_app. simpl. lia.
  - destruct s as [|c s]; [reflexivity|].
    rewrite (viewform_unfold (c :: R s)).
    destruct (strip_prefix viewform (c :: R s)) as [r|] eqn:Hr.
    + apply strip_prefix_Some in Hr. rewrite viewform_head in Hr.
      injection Hr as -> Hr.
      destruct (viewform_prefix_kept viewform_tail s r viewform_tail_slashless Hr)
        as [t' ->].
      discriminate.
    + f_equal. apply IH. simpl. lia.
Qed.

Lemma viewform_absent q : 47%N ∉ q → R q = q.
Proof.
  intros Hq. induction q as [|c q IH]; [reflexivity|].
  rewrite viewform_unfold.
  destruct (strip_prefix viewform (c :: q)) as [r|] eqn:Hr.
  - apply strip_prefix_Some in Hr. rewrite viewform_head in Hr.
    injection Hr as -> _. destruct Hq. left.
  - f_equal. apply IH. intros Hin. apply Hq. right. exact Hin.
Qed.

Lemma last_slash_unique (l1 r1 l2 r2 : text) :
  47%N ∉ r1 → 47%N ∉ r2 → l1 ++ 47%N :: r1 = l2 ++ 47%N :: r2 → l1 = l2 ∧ r1 = r2.
Proof.
  intros H1 H2 E. apply app_eq_inv in E.
  destruct E as [(k & -> & Hk)|(k & -> & Hk)]; destruct k as [|x k].
  - rewrite app_nil_r. simpl in Hk. injection Hk as ->. split; reflexivity.
  - injection Hk as <- ->. destruct H2. apply elem_of_app. right. left.
  - rewrite app_nil_r. simpl in Hk. injection Hk as ->. split; reflexivity.
  - injection Hk as <- ->. destruct H1. apply elem_of_app. right. left.
Qed.

Lemma response_url_ends url :
  ∃ pre, get_form_response_url url = pre ++ py "/formResponse".
Proof.
  unfold get_form_response_url. fold viewform formResponse R.
  destruct (endswith (R url) formResponse) eqn:He; cbn [negb].
  - apply endswith_spec in He. exact He.
  - destruct (endswith (R url) (py "/")) eqn:Hs; cbn [negb].
    + apply endswith_spec in Hs. destruct Hs as [pre Hs]. exists pre.
      rewrite Hs, <- app_assoc. reflexivity.
    + exists (R url). rewrite <- app_assoc. reflexivity.
Qed.

(** X1. Whatever the address, the response address ends with
    "/formResponse". *)
Theorem response_url_ends_with_formResponse url :
  endswith (get_form_response_url url) (py "/formResponse") = true.
Proof. apply endswith_spec, response_url_ends. Qed.

(** X2. Converting a response address again changes nothing. *)
Theorem response_url_idempotent url :
  get_form_response_url (get_form_response_url url) = get_form_response_url url.
Proof.
  assert (∀ w, R w = w → endswith w formResponse = true → get_form_response_url w = w)
    as Hfix.
  { intros w Hw He. unfold get_form_response_url. fold viewform formResponse R.
    rewrite Hw, He. reflexivity. }
  apply Hfix.
  - unfold get_form_response_url. fold viewform formResponse R.
    destruct (endswith (R url) formResponse); cbn [negb].
    + apply viewform_replaced_once.
    + destruct (endswith (R url) (py "/")) eqn:Hs; cbn [negb].
      * apply endswith_spec in Hs. destruct Hs as [pre Hs].
        pose proof (viewform_replaced_once url) as Hr. rewrite Hs in Hr.
        change (pre ++ py "/") with (pre ++ 47%N :: []) in Hr.
        rewrite viewform_split in Hr. apply app_inv_tail in Hr.
        rewrite Hs, <- app_assoc.
        change (py "/" ++ py "formResponse") with (47%N :: py "formResponse").
        rewrite viewform_split, Hr. reflexivity.
      * rewrite <- app_assoc.
        change (py "/" ++ py "formResponse") with (47%N :: py "formResponse").
        rewrite viewform_split, viewform_replaced_once. reflexivity.
  - apply endswith_spec. apply response_url_ends.
Qed.

Let formResponse_tail : text :=
  [102; 111; 114; 109; 82; 101; 115; 112; 111; 110; 115; 101]%N.

Lemma formResponse_head : formResponse = 47%N :: formResponse_tail.
Proof. reflexivity. Qed.

Lemma formResponse_tail_slashless : 47%N ∉ formResponse_tail.
Proof.
  intros Hin. unfold formResponse_tail in Hin.
  repeat match goal with
         | Hx : _ ∈ _ :: _ |- _ => apply elem_of_cons in Hx; destruct Hx as [Hx|Hx]
         | Hx : _ ∈ [] |- _ => inversion Hx
         | Hx : _ = _ |- _ => discriminate Hx
         end.
Qed.

(** X3. In an address that reads [base], "/viewform", then a rest [q]
    without a slash (a query string, or nothing), "/viewform" becomes
    "/formResponse" (as does every "/viewform" in [base]); and when [q] is not
    empty a second "/formResponse" is put after it. *)
Theorem response_url_of_view_link base q :
  47%N ∉ q →
  get_form_response_url (base ++ py "/viewform" ++ q) =
  str_replace (py "/viewform") (py "/formResponse") base ++ py "/formResponse" ++ q
  ++ match q with [] => [] | _ :: _ => py "/formResponse" end.
Proof.
  intros Hq. unfold get_form_response_url. fold viewform formResponse R.
  assert (R (base ++ viewform ++ q) = R base ++ formResponse ++ q) as ->.
  { rewrite viewform_head, <- app_comm_cons, viewform_split, app_comm_cons.
    rewrite <- viewform_head, (viewform_unfold (viewform ++ q)), strip_prefix_app.
    rewrite (viewform_absent q Hq). reflexivity. }
  destruct q as [|c q].
  - rewrite !app_nil_r.
    assert (endswith (R base ++ formResponse) formResponse = true) as ->
      by (apply endswith_spec; eauto).
    reflexivity.
  - assert (47%N ∉ formResponse_tail ++ c :: q) as Hfq.
    { intros Hin. apply elem_of_app in Hin.
      destruct Hin as [Hin|Hin]; [exact (formResponse_tail_slashless Hin)|exact (Hq Hin)]. }
    assert (endswith (R base ++ formResponse ++ c :: q) formResponse = false) as ->.
    { destruct (endswith _ formResponse) eqn:He; [|reflexivity].
      apply endswith_spec in He. destruct He as [pre He].
      rewrite formResponse_head, <- app_comm_cons in He.
      apply last_slash_unique in He;
        [|exact Hfq|exact formResponse_tail_slashless].
      destruct He as [_ He]. rewrite <- (app_nil_r formResponse_tail) in He at 2.
      apply app_inv_head in He. discriminate. }
    assert (endswith (R base ++ formResponse ++ c :: q) (py "/") = false) as ->.
    { destruct (endswith _ (py "/")) eqn:He; [|reflexivity].
      apply endswith_spec in He. destruct He as [pre He].
      rewrite formResponse_head, <- app_comm_cons in He.
      change (py "/") with [47%N] in He.
      apply last_slash_unique in He; [|exact Hfq|intros Hin; inversion Hin].
      destruct He as [_ He]. discriminate. }
    cbn [negb]. rewrite <- !app_assoc. reflexivity.
Qed.

End ResponseUrl.

(** ** More on the schema normaliser *)

Lemma sub_entries_loop_required entry_name entry_type_id subs :
  ∀ result,
    sub_entries_loop true entry_name entry_type_id subs (List.filter is_required result) =
    (ds <- sub_entries_loop false entry_name entry_type_id subs result ;;
     ret (List.filter is_required ds)).
Proof.
  induction subs as [|sub subs IH]; intros result; cbn [sub_entries_loop].
  - rewrite bind_ret_l. reflexivity.
  - rewrite bind_assoc. apply bind_ext. intros info. cbn [andb].
    rewrite <- IH, List.filter_app. cbn [List.filter].
    destruct (truthy (d_required info)) eqn:Hr; cbn [negb].
    + replace (is_required info) with true by (symmetry; exact Hr). reflexivity.
    + replace (is_required info) with false by (symmetry; exact Hr).
      rewrite app_nil_r. reflexivity.
Qed.

Lemma parse_entry_required entry :
  parse_entry true entry =
  (ds <- parse_entry false entry ;; ret (List.filter is_required ds)).
Proof.
  unfold parse_entry. rewrite !bind_assoc. apply bind_ext. intros entry_name.
  rewrite !bind_assoc. apply bind_ext. intros entry_type_id.
  rewrite !bind_assoc. apply bind_ext. intros e4.
  destruct (isinstance_list e4).
  - rewrite bind_assoc. apply bind_ext. intros subs.
    apply (sub_entries_loop_required _ _ _ []).
  - rewrite bind_assoc. apply bind_ext. intros _. rewrite bind_ret_l. reflexivity.
Qed.

(** X4. Parsing an entry with the required-only filter gives the descriptors
    of the unfiltered parse whose required flag is set, in the same order,
    with the same warnings and the same exception if any. *)
Theorem parse_entry_required_only entry :
  parse_entry true entry =
  (ds <- parse_entry false entry ;; ret (List.filter is_required ds)).
Proof. exact (parse_entry_required entry). Qed.

Lemma entries_loop_required qs :
  ∀ parsed_entries page_count,
    entries_loop true qs (List.filter is_required parsed_entries) page_count =
    (r <- entries_loop false qs parsed_entries page_count ;;
     ret (List.filter is_required (fst r), snd r)).
Proof.
  induction qs as [|entry qs IH]; intros parsed n; cbn [entries_loop].
  - rewrite bind_ret_l. reflexivity.
  - rewrite bind_assoc. apply bind_ext. intros t.
    destruct (eq_int t FORM_SESSION_TYPE_ID); [apply IH|].
    rewrite parse_entry_required, !bind_assoc. apply bind_ext. intros ds.
    rewrite bind_ret_l, <- List.filter_app. apply IH.
Qed.

Lemma entries_loop_named only_required qs l parsed n :
  entries_loop only_required qs [] 0 = (l, Ok (parsed, n)) →
  Forall (λ d, is_pseudo d = false) parsed.
Proof.
  rewrite entries_loop_spec. intros Hl. apply bind_Ok_inv in Hl.
  destruct Hl as (? & dss & ? & Hm & Hl & _). injection Hl as _ <- _.
  eapply mapM_parse_entry_named, Hm.
Qed.

Lemma bind_Ok_unit {A B} l (a : A) (k : A -> M B) :
  bind (l, Ok a) k = bind (l, Ok tt) (fun _ => k a).
Proof. reflexivity. Qed.

Lemma filter_agree {A} (g h : A → bool) l :
  Forall (λ x, g x = h x) l → List.filter g l = List.filter h l.
Proof.
  induction 1 as [|x l Hx _ IH]; [reflexivity|].
  cbn [List.filter]. rewrite Hx, IH. reflexivity.
Qed.

(** X5. With the required-only filter [parse_form_entries] returns what it
    returns without it, less the question descriptors whose required flag is
    not set: the email and page-history pseudo-fields stay, and the printed
    lines and the exception, if any, are the same. *)
Theorem parse_form_entries_required_only v :
  parse_form_entries v true =
  (r <- parse_form_entries v false ;;
   ret (option_map (List.filter (λ d, is_required d || is_page_history_field d)) r)).
Proof.
  unfold parse_form_entries. rewrite bind_assoc. apply bind_ext. intros unusable.
  destruct unusable.
  - rewrite bind_assoc. apply bind_ext. intros _. rewrite bind_ret_l. reflexivity.
  - rewrite !bind_assoc. apply bind_ext. intros v1.
    rewrite !bind_assoc. apply bind_ext. intros v11.
    rewrite !bind_assoc. apply bind_ext. intros qs.
    pose proof (entries_loop_required qs [] 0) as Hreq. cbn [List.filter] in Hreq.
    rewrite Hreq. clear Hreq.
    destruct (entries_loop false qs [] 0) as [l [[parsed n]|e]] eqn:Hloop; [|reflexivity].
    pose proof (entries_loop_named _ _ _ _ _ Hloop) as Hnamed.
    rewrite !bind_assoc, !(bind_Ok_unit l (parsed, n)). apply bind_ext. intros _.
    rewrite bind_ret_l. cbv beta iota. cbn [fst snd]. rewrite !bind_assoc.
    apply bind_ext. intros v1'. rewrite !bind_assoc. apply bind_ext. intros v10.
    rewrite !bind_assoc. apply bind_ext. intros flag.
    rewrite !bind_assoc. apply bind_ext. intros collect. rewrite bind_ret_l.
    cbn [option_map]. do 2 f_equal.
    assert (List.filter (λ d, is_required d || is_page_history_field d) parsed
            = List.filter is_required parsed) as Hq.
    { apply filter_agree. eapply Forall_impl; [exact Hnamed|].
      intros d Hd. unfold is_page_history_field. rewrite Hd, orb_false_r. reflexivity. }
    destruct collect, (0 <? n)%nat; rewrite ?List.filter_app, Hq; reflexivity.
Qed.

Lemma option_labels_truthy xs :
  ∀ l os,
    mapM (fun x => x0 <- getitem x 0 ;;
                   ret (if truthy x0 then x0 else VStr ANY_TEXT_FIELD)) xs = (l, Ok os) →
    length os = length xs ∧ Forall (λ o, truthy o = true) os.
Proof.
  induction xs as [|x xs IH]; intros l os; cbn [mapM].
  - intros [= _ <-]. split; [reflexivity|constructor].
  - intros Hm. apply bind_Ok_inv in Hm. destruct Hm as (? & o & ? & Ho & Hm & _).
    apply bind_Ok_inv in Hm. destruct Hm as (? & os' & ? & Hos & Hm & _).
    injection Hm as _ <-. destruct (IH _ _ Hos) as [Hlen Hall].
    split; [simpl; congruence|]. constructor; [|exact Hall].
    apply bind_Ok_inv in Ho. destruct Ho as (? & label & ? & _ & Ho & _).
    injection Ho as _ <-. destruct (truthy label) eqn:Hx; [exact Hx|reflexivity].
Qed.

Lemma iter_truthy s l xs : iter s = (l, Ok xs) → truthy s = true → xs ≠ [].
Proof.
  destruct s as [| | | |s|s|s]; try discriminate;
    intros [= _ <-]; destruct s; simpl; congruence.
Qed.

Lemma parse_sub_entry_shape entry_name entry_type_id sub_entry l info :
  parse_sub_entry entry_name entry_type_id sub_entry = (l, Ok info) →
  parsed_from entry_name entry_type_id info.
Proof.
  unfold parse_sub_entry. intros Hp.
  apply bind_Ok_inv in Hp. destruct Hp as (? & i & ? & _ & Hp & _).
  apply bind_Ok_inv in Hp. destruct Hp as (? & r & ? & _ & Hp & _).
  apply bind_Ok_inv in Hp. destruct Hp as (? & n & ? & _ & Hp & _).
  apply bind_Ok_inv in Hp. destruct Hp as (? & nm & ? & Hnm & Hp & _).
  apply bind_Ok_inv in Hp. destruct Hp as (? & s1 & ? & _ & Hp & _).
  apply bind_Ok_inv in Hp. destruct Hp as (? & opts & ? & Hopts & Hp & _).
  injection Hp as _ <-. unfold parsed_from. cbn.
  split; [reflexivity|]. split; [reflexivity|]. split; [eauto|]. split; [|split; [|reflexivity]].
  - destruct (3 <? n)%nat; [|injection Hnm as _ <-; left; reflexivity].
    apply bind_Ok_inv in Hnm. destruct Hnm as (? & s3 & ? & _ & Hnm & _).
    destruct (truthy s3); [|injection Hnm as _ <-; left; reflexivity].
    apply bind_Ok_inv in Hnm. destruct Hnm as (? & t & ? & _ & Hnm & _).
    injection Hnm as _ <-. right. eauto.
  - destruct (truthy s1) eqn:Hs1; [|injection Hopts as _ <-; left; reflexivity].
    apply bind_Ok_inv in Hopts. destruct Hopts as (? & xs & ? & Hxs & Hopts & _).
    apply bind_Ok_inv in Hopts. destruct Hopts as (? & os & ? & Hos & Hopts & _).
    injection Hopts as _ <-. right. exists os. split; [reflexivity|].
    destruct (option_labels_truthy _ _ _ Hos) as [Hlen Hall]. split; [|exact Hall].
    pose proof (iter_truthy _ _ _ Hxs Hs1) as Hne.
    destruct os; [destruct xs; [congruence|discriminate]|discriminate].
Qed.

Lemma sub_entries_loop_shape only_required entry_name entry_type_id subs :
  ∀ result l ds,
    sub_entries_loop only_required entry_name entry_type_id subs result = (l, Ok ds) →
    Forall (parsed_from entry_name entry_type_id) result →
    Forall (parsed_from entry_name entry_type_id) ds
    ∧ length ds ≤ length result + length subs
    ∧ (only_required = false → length ds = length result + length subs).
Proof.
  induction subs as [|sub subs IH]; intros result l ds; cbn [sub_entries_loop].
  - intros [= _ <-] F. split; [exact F|]. simpl. split; [lia|intros; lia].
  - intros Hl F. apply bind_Ok_inv in Hl. destruct Hl as (? & info & ? & Hp & Hl & _).
    apply parse_sub_entry_shape in Hp.
    destruct (only_required && negb (truthy (d_required info))) eqn:Hc.
    + destruct (IH _ _ _ Hl F) as (Hds & Hle & _). split; [exact Hds|].
      cbn [length]. split; [lia|].
      intros ->. discriminate.
    + assert (Forall (parsed_from entry_name entry_type_id) (result ++ [info])) as F'
        by (apply Forall_app; split; [exact F|constructor; [exact Hp|constructor]]).
      destruct (IH _ _ _ Hl F') as (Hds & Hle & Heq). split; [exact Hds|].
      rewrite length_app in Hle, Heq. cbn [length] in *. split; [lia|].
      intros Hr. specialize (Heq Hr). lia.
Qed.

Lemma iter_silent v l r : iter v = (l, r) → l = [].
Proof. destruct v; simpl; intros [= <- _]; reflexivity. Qed.

Lemma option_labels_built xs :
  ∀ l os,
    mapM (fun x => x0 <- getitem x 0 ;;
                   ret (if truthy x0 then x0 else VStr ANY_TEXT_FIELD)) xs = (l, Ok os) →
    Forall2 option_label xs os.
Proof.
  induction xs as [|x xs IH]; intros l os; cbn [mapM].
  - intros [= _ <-]. constructor.
  - intros Hm. apply bind_Ok_inv in Hm. destruct Hm as (? & o & ? & Ho & Hm & _).
    apply bind_Ok_inv in Hm. destruct Hm as (? & os' & ? & Hos & Hm & _).
    injection Hm as _ <-. constructor; [|exact (IH _ _ Hos)].
    apply bind_Ok_inv in Ho. destruct Ho as (lx & label & ? & Hx & Ho & _).
    pose proof (getitem_silent _ _ _ _ Hx) as ->.
    injection Ho as _ <-. exists label. split; [exact Hx|].
    destruct (truthy label); [left|right]; split; reflexivity.
Qed.

Lemma parse_sub_entry_built entry_name entry_type_id sub_entry l info :
  parse_sub_entry entry_name entry_type_id sub_entry = (l, Ok info) →
  built_from sub_entry info.
Proof.
  unfold parse_sub_entry. intros Hp.
  apply bind_Ok_inv in Hp. destruct Hp as (l0 & i & ? & H0 & Hp & _).
  apply bind_Ok_inv in Hp. destruct Hp as (l2 & r & ? & H2 & Hp & _).
  apply bind_Ok_inv in Hp. destruct Hp as (? & n & ? & _ & Hp & _).
  apply bind_Ok_inv in Hp. destruct Hp as (? & nm & ? & _ & Hp & _).
  apply bind_Ok_inv in Hp. destruct Hp as (l1 & s1 & ? & H1 & Hp & _).
  apply bind_Ok_inv in Hp. destruct Hp as (? & opts & ? & Hopts & Hp & _).
  pose proof (getitem_silent _ _ _ _ H0) as ->.
  pose proof (getitem_silent _ _ _ _ H2) as ->.
  pose proof (getitem_silent _ _ _ _ H1) as ->.
  injection Hp as _ <-. unfold built_from. cbn.
  split; [exact H0|]. split; [exists r; split; [exact H2|reflexivity]|].
  exists s1. split; [exact H1|].
  destruct (truthy s1); [right|left; injection Hopts as _ <-; split; reflexivity].
  split; [reflexivity|].
  apply bind_Ok_inv in Hopts. destruct Hopts as (lx & xs & ? & Hxs & Hopts & _).
  apply bind_Ok_inv in Hopts. destruct Hopts as (? & os & ? & Hos & Hopts & _).
  pose proof (iter_silent _ _ _ Hxs) as ->.
  injection Hopts as _ <-. exists xs, os. split; [exact Hxs|].
  split; [reflexivity|exact (option_labels_built _ _ _ Hos)].
Qed.

Lemma sub_entries_loop_built only_required entry_name entry_type_id subs :
  ∀ result l ds,
    sub_entries_loop only_required entry_name entry_type_id subs result = (l, Ok ds) →
    ∃ kept ds',
      ds = result ++ ds' ∧ kept `sublist_of` subs ∧ Forall2 built_from kept ds'
      ∧ (only_required = false → kept = subs).
Proof.
  induction subs as [|sub subs IH]; intros result l ds; cbn [sub_entries_loop].
  - intros [= _ <-]. exists [], []. rewrite app_nil_r.
    split; [reflexivity|]. split; [constructor|]. split; [constructor|reflexivity].
  - intros Hl. apply bind_Ok_inv in Hl. destruct Hl as (? & info & ? & Hp & Hl & _).
    apply parse_sub_entry_built in Hp.
    destruct (only_required && negb (truthy (d_required info))) eqn:Hc.
    + destruct (IH _ _ _ Hl) as (kept & ds' & -> & Hs & F & _).
      exists kept, ds'. split; [reflexivity|]. split; [apply sublist_cons, Hs|].
      split; [exact F|]. intros ->. discriminate.
    + destruct (IH _ _ _ Hl) as (kept & ds' & -> & Hs & F & Hall).
      exists (sub :: kept), (info :: ds'). rewrite <- app_assoc.
      split; [reflexivity|]. split; [apply sublist_skip, Hs|].
      split; [constructor; assumption|]. intros Hr. rewrite (Hall Hr). reflexivity.
Qed.

(** X6. Every descriptor [parse_entry] returns for an entry carries the
    entry's name [entry[1]] and type [entry[3]], a Boolean required flag, a
    name that is [None] or a string, no default, and options that are [None]
    or a non-empty list of truthy values. The descriptors are those of
    sub-entries of [entry[4]] in their order, of all of them without the
    required-only filter, each with the id [sub_entry[0]], the flag
    [sub_entry[2] == 1] and, for options, the labels [x[0]] of the items of
    [sub_entry[1]], one per item and in order, an empty or null label being
    replaced by "ANY TEXT!!". When [entry[4]] is not a list there is no
    descriptor and one warning. *)
Theorem parse_entry_descriptors only_required entry l ds :
  parse_entry only_required entry = (l, Ok ds) →
  ∃ entry_name entry_type_id e4,
    getitem entry 1 = ret entry_name ∧ getitem entry 3 = ret entry_type_id ∧
    getitem entry 4 = ret e4 ∧
    Forall (parsed_from entry_name entry_type_id) ds ∧
    match e4 with
    | VList subs =>
        length ds ≤ length subs ∧ (only_required = false → length ds = length subs) ∧
        ∃ kept, kept `sublist_of` subs ∧ Forall2 built_from kept ds
                ∧ (only_required = false → kept = subs)
    | _ => ds = [] ∧ l = [MsgNotIterable entry]
    end.
Proof.
  unfold parse_entry. intros Hp.
  apply bind_Ok_inv in Hp. destruct Hp as (l1 & entry_name & ? & H1 & Hp & ->).
  apply bind_Ok_inv in Hp. destruct Hp as (l3 & entry_type_id & ? & H3 & Hp & ->).
  apply bind_Ok_inv in Hp. destruct Hp as (l4 & e4 & ? & H4 & Hp & ->).
  pose proof (getitem_silent _ _ _ _ H1) as ->.
  pose proof (getitem_silent _ _ _ _ H3) as ->.
  pose proof (getitem_silent _ _ _ _ H4) as ->.
  exists entry_name, entry_type_id, e4.
  split; [exact H1|]. split; [exact H3|]. split; [exact H4|]. split.
  - destruct (isinstance_list e4).
    + apply bind_Ok_inv in Hp. destruct Hp as (? & subs & ? & _ & Hp & _).
      eapply sub_entries_loop_shape; [exact Hp|constructor].
    + injection Hp as _ <-. constructor.
  - destruct e4 as [| | | | |subs|]; cbn [isinstance_list] in Hp;
      try (injection Hp as <- <-; split; reflexivity).
    cbn [iter] in Hp. rewrite bind_ret_l in Hp.
    destruct (sub_entries_loop_shape _ _ _ _ _ _ _ Hp (List.Forall_nil _)) as (_ & Hle & Heq).
    destruct (sub_entries_loop_built _ _ _ _ _ _ _ Hp) as (kept & ds' & -> & Hs & F & Hall).
    cbn [length app] in *. split; [lia|]. split; [exact Heq|].
    exists kept. split; [exact Hs|]. split; [exact F|exact Hall].
Qed.


Section Fetch.
Context `{Library}.

(** X8. [get_fb_public_load_data] on a status other than 200 prints the
    fetch error and returns [None] without looking at the body. It returns
    something other than [None] only when the status is 200, the literal is
    in the body and the text of its leftmost occurrence decodes to that
    value; nothing is then printed. It raises only when [requests.get]
    raises, or when the status is 200 and [json.loads] raises something other
    than a [JSONDecodeError] on the text of the literal; nothing is then
    printed either. *)
Theorem get_fb_public_load_data_spec (fetched : fetched_page) :
  (∀ status_code body,
     fetched = Response status_code body → status_code ≠ 200%Z →
     get_fb_public_load_data fetched = ([MsgFetchError status_code], Ok VNone)) ∧
  (∀ l v,
     get_fb_public_load_data fetched = (l, Ok v) → v ≠ VNone →
     l = [] ∧
     ∃ body g, fetched = Response 200 body ∧ literal_found ALL_DATA_FIELDS body g
               ∧ json_loads g = Loaded v) ∧
  (∀ l e,
     get_fb_public_load_data fetched = (l, Raise e) →
     l = [] ∧
     ((fetched = RequestRaises ∧ e = RequestException)
      ∨ ∃ body g, fetched = Response 200 body ∧ literal_found ALL_DATA_FIELDS body g
                  ∧ json_loads g = LoadRaises e)).
Proof.
  unfold get_fb_public_load_data. split; [|split].
  - intros status_code body -> Hs.
    destruct (Z.eqb_spec status_code 200) as [E|_]; [destruct (Hs E)|]. reflexivity.
  - intros l v Hrun Hv. destruct fetched as [status_code body|]; [|discriminate].
    destruct (Z.eqb_spec status_code 200) as [->|_]; cbn [negb] in Hrun.
    + unfold extract_script_variables in Hrun.
      destruct (regex_search ALL_DATA_FIELDS body) as [g|] eqn:Hr.
      * destruct (json_loads g) as [v'|e|e] eqn:Hj.
        -- injection Hrun as <- <-. split; [reflexivity|]. exists body, g.
           split; [reflexivity|]. split; [apply regex_search_found, Hr|exact Hj].
        -- injection Hrun as _ <-. destruct Hv. reflexivity.
        -- discriminate.
      * injection Hrun as _ <-. destruct Hv. reflexivity.
    + injection Hrun as _ <-. destruct Hv. reflexivity.
  - intros l e Hrun. destruct fetched as [status_code body|].
    + destruct (Z.eqb_spec status_code 200) as [->|_]; cbn [negb] in Hrun; [|discriminate].
      unfold extract_script_variables in Hrun.
      destruct (regex_search ALL_DATA_FIELDS body) as [g|] eqn:Hr; [|discriminate].
      destruct (json_loads g) as [v'|e'|e'] eqn:Hj; [discriminate|discriminate|].
      injection Hrun as <- <-. split; [reflexivity|]. right. exists body, g.
      split; [reflexivity|]. split; [apply regex_search_found, Hr|exact Hj].
    + injection Hrun as <- <-. split; [reflexivity|]. left. split; reflexivity.
Qed.

End Fetch.

(** ** More on the comparison normalisation *)

Lemma is_space_range c : is_space c = true → (c ≤ 32 ∨ 133 ≤ c)%N.
Proof.
  unfold is_space. rewrite !orb_true_iff, !andb_true_iff, !N.leb_le, !N.eqb_eq. lia.
Qed.

Lemma lower_char_space c : is_space (lower_char c) = is_space c.
Proof.
  unfold lower_char. destruct ((65 <=? c) && (c <=? 90))%N eqn:Hu; [|reflexivity].
  apply andb_true_iff in Hu. rewrite !N.leb_le in Hu.
  destruct (is_space c) eqn:H1; [apply is_space_range in H1; lia|].
  destruct (is_space (c + 32)) eqn:H2; [apply is_space_range in H2; lia|reflexivity].
Qed.

Lemma lower_char_fixed c : is_upper c = false → lower_char c = c.
Proof. unfold lower_char, is_upper. intros ->. reflexivity. Qed.

Lemma lower_char_not_upper c : is_upper (lower_char c) = false.
Proof.
  unfold lower_char, is_upper.
  destruct ((65 <=? c) && (c <=? 90))%N eqn:Hu; [|exact Hu].
  apply andb_true_iff in Hu. rewrite !N.leb_le in Hu.
  apply andb_false_iff. right. apply N.leb_gt. lia.
Qed.

Lemma lower_char_ascii c : (c < 128)%N → (lower_char c < 128)%N.
Proof.
  unfold lower_char. destruct ((65 <=? c) && (c <=? 90))%N eqn:Hu; [|tauto].
  apply andb_true_iff in Hu. rewrite !N.leb_le in Hu. lia.
Qed.

(** A character that is no letter is the lower case of itself only. *)
Lemma lower_char_eqb c k :
  (k < 65 ∨ 90 < k)%N → (k < 97 ∨ 122 < k)%N → (lower_char c =? k)%N = (c =? k)%N.
Proof.
  intros H1 H2. unfold lower_char.
  destruct ((65 <=? c) && (c <=? 90))%N eqn:Hu; [|reflexivity].
  apply andb_true_iff in Hu. rewrite !N.leb_le in Hu.
  destruct (N.eqb_spec (c + 32) k), (N.eqb_spec c k); try reflexivity; lia.
Qed.

Lemma lower_map s : lower s = map lower_char s.
Proof. reflexivity. Qed.

Lemma skip_spaces_head s : head_not_space (skip_spaces s) = true.
Proof.
  induction s as [|c s IH]; [reflexivity|].
  simpl. destruct (is_space c) eqn:Hc; [exact IH|]. simpl. rewrite Hc. reflexivity.
Qed.

Lemma skip_spaces_fixed s : head_not_space s = true → skip_spaces s = s.
Proof.
  destruct s as [|c s]; [reflexivity|]. simpl. intros Hc.
  apply negb_true_iff in Hc. rewrite Hc. reflexivity.
Qed.

Lemma strip_split w :
  ∃ a b, w = a ++ strip w ++ b
         ∧ Forall (λ x, is_space x = true) a ∧ Forall (λ x, is_space x = true) b.
Proof.
  unfold strip. destruct (skip_spaces_split w) as (a & Ea & Fa).
  destruct (skip_spaces_split (rev (skip_spaces w))) as (b & Eb & Fb).
  exists a, (rev b). split; [|split; [exact Fa|]].
  - rewrite Ea at 1. f_equal. apply (f_equal (@rev N)) in Eb.
    rewrite rev_involutive, rev_app_distr in Eb. exact Eb.
  - apply List.Forall_rev, Fb.
Qed.

Lemma strip_unpadded w : unpadded (strip w).
Proof.
  split.
  - unfold strip.
    destruct (skip_spaces_split (rev (skip_spaces w))) as (b & Eb & Fb).
    apply (f_equal (@rev N)) in Eb. rewrite rev_involutive, rev_app_distr in Eb.
    pose proof (skip_spaces_head w) as Hh. rewrite Eb in Hh.
    destruct (rev (skip_spaces (rev (skip_spaces w)))) as [|c r] eqn:Er; [reflexivity|].
    exact Hh.
  - unfold strip. rewrite rev_involutive. apply skip_spaces_head.
Qed.

Lemma strip_fixed s : unpadded s → strip s = s.
Proof.
  intros [Hh Hl]. unfold strip.
  rewrite (skip_spaces_fixed s Hh), (skip_spaces_fixed (rev s) Hl). apply rev_involutive.
Qed.

Lemma sub_spaces_head s : head_not_space (sub_spaces true s) = true.
Proof.
  induction s as [|c s IH]; [reflexivity|].
  simpl. destruct (is_space c) eqn:Hc; [exact IH|]. simpl. rewrite Hc. reflexivity.
Qed.

Lemma sub_spaces_single s : ∀ b, single_spaced (sub_spaces b s) = true.
Proof.
  induction s as [|c s IH]; intros b; [reflexivity|].
  cbn [sub_spaces]. destruct (is_space c) eqn:Hc.
  - destruct b; [apply IH|].
    cbn [single_spaced]. rewrite (IH true), sub_spaces_head. reflexivity.
  - cbn [single_spaced]. rewrite Hc, (IH false). reflexivity.
Qed.

Lemma sub_spaces_fixed s :
  ∀ b, single_spaced s = true → (b = true → head_not_space s = true) →
       sub_spaces b s = s.
Proof.
  induction s as [|c s IH]; intros b Hs Hb; [reflexivity|].
  cbn [single_spaced] in Hs. apply andb_true_iff in Hs. destruct Hs as [Hc Hs].
  cbn [sub_spaces]. destruct (is_space c) eqn:Ec.
  - apply andb_true_iff in Hc. destruct Hc as [Hc Hh]. apply N.eqb_eq in Hc.
    destruct b.
    + specialize (Hb eq_refl). cbn [head_not_space] in Hb. rewrite Ec in Hb. discriminate.
    + subst c. f_equal. apply IH; [exact Hs|intros _; exact Hh].
  - f_equal. apply IH; [exact Hs|discriminate].
Qed.

Lemma single_spaced_app a b :
  single_spaced (a ++ b) = true → single_spaced a = true ∧ single_spaced b = true.
Proof.
  induction a as [|c a IH]; [intros Hs; split; [reflexivity|exact Hs]|].
  cbn [app single_spaced]. intros Hs. apply andb_true_iff in Hs. destruct Hs as [Hc Hs].
  destruct (IH Hs) as [Ha Hb]. split; [|exact Hb].
  rewrite Ha, andb_true_r. destruct (is_space c); [|reflexivity].
  apply andb_true_iff in Hc. destruct Hc as [-> Hh]. destruct a; [reflexivity|exact Hh].
Qed.

Lemma encode_ascii_ignore_ascii s : Forall (λ c, (c < 128)%N) (encode_ascii_ignore s).
Proof.
  unfold encode_ascii_ignore. induction s as [|c s IH]; [constructor|].
  cbn [List.filter]. destruct (N.ltb_spec c 128); [constructor; assumption|exact IH].
Qed.

Lemma encode_ascii_ignore_fixed s :
  Forall (λ c, (c < 128)%N) s → encode_ascii_ignore s = s.
Proof.
  unfold encode_ascii_ignore. induction 1 as [|c s Hc _ IH]; [reflexivity|].
  cbn [List.filter]. apply N.ltb_lt in Hc. rewrite Hc, IH. reflexivity.
Qed.

Lemma replace_char_fixed old new s :
  Forall (λ c, c ≠ old ∨ old = new) s → replace_char old new s = s.
Proof.
  unfold replace_char. induction 1 as [|c s Hc _ IH]; [reflexivity|].
  cbn [map]. rewrite IH. destruct (N.eqb_spec c old); [|reflexivity].
  destruct Hc; congruence.
Qed.

Lemma replace_char_keeps (P : N → Prop) old new s :
  P new → Forall P s → Forall P (replace_char old new s).
Proof.
  intros Hn. unfold replace_char. induction 1 as [|c s Hc _ IH]; [constructor|].
  cbn [map]. constructor; [|exact IH]. destruct (c =? old)%N; assumption.
Qed.

Lemma replace_char_gone old new s :
  old ≠ new → Forall (λ c, c ≠ old) (replace_char old new s).
Proof.
  intros Hne. unfold replace_char. induction s as [|c s IH]; [constructor|].
  cbn [map]. constructor; [|exact IH].
  destruct (N.eqb_spec c old); congruence.
Qed.

Lemma sub_spaces_keeps (P : N → Prop) s :
  P 32%N → Forall P s → ∀ b, Forall P (sub_spaces b s).
Proof.
  intros H32. induction 1 as [|c s Hc _ IH]; intros b; [constructor|].
  cbn [sub_spaces]. destruct (is_space c).
  - destruct b; [apply IH|constructor; [exact H32|apply IH]].
  - constructor; [exact Hc|apply IH].
Qed.

Lemma strip_keeps (P : N → Prop) s : Forall P s → Forall P (strip s).
Proof.
  intros F. destruct (strip_split s) as (a & b & E & _ & _). rewrite E in F.
  apply Forall_app in F. destruct F as [_ F]. apply Forall_app in F. tauto.
Qed.

Lemma strip_single s : single_spaced s = true → single_spaced (strip s) = true.
Proof.
  intros Hs. destruct (strip_split s) as (a & b & E & _ & _). rewrite E in Hs.
  apply single_spaced_app in Hs. destruct Hs as [_ Hs].
  apply single_spaced_app in Hs. tauto.
Qed.

Lemma head_not_space_lower s : head_not_space (map lower_char s) = head_not_space s.
Proof. destruct s; [reflexivity|]. simpl. rewrite lower_char_space. reflexivity. Qed.

Lemma single_spaced_lower s : single_spaced (map lower_char s) = single_spaced s.
Proof.
  induction s as [|c s IH]; [reflexivity|].
  cbn [map single_spaced]. rewrite IH, lower_char_space, head_not_space_lower.
  rewrite lower_char_eqb by lia. reflexivity.
Qed.

Lemma unpadded_lower s : unpadded s → unpadded (map lower_char s).
Proof.
  intros [Hh Hl]. split.
  - rewrite head_not_space_lower. exact Hh.
  - rewrite <- map_rev, head_not_space_lower. exact Hl.
Qed.

Lemma skip_spaces_lower s : skip_spaces (map lower_char s) = map lower_char (skip_spaces s).
Proof.
  induction s as [|c s IH]; [reflexivity|].
  cbn [map skip_spaces]. rewrite lower_char_space. destruct (is_space c); [exact IH|reflexivity].
Qed.

Lemma strip_lower s : strip (map lower_char s) = map lower_char (strip s).
Proof.
  unfold strip. rewrite skip_spaces_lower, <- map_rev, skip_spaces_lower, map_rev.
  reflexivity.
Qed.

Lemma sub_spaces_lower s :
  ∀ b, sub_spaces b (map lower_char s) = map lower_char (sub_spaces b s).
Proof.
  induction s as [|c s IH]; intros b; [reflexivity|].
  cbn [map sub_spaces]. rewrite lower_char_space. destruct (is_space c).
  - destruct b; [apply IH|]. cbn [map]. rewrite IH. reflexivity.
  - cbn [map]. rewrite IH. reflexivity.
Qed.

Lemma replace_char_lower k s :
  (k < 65 ∨ 90 < k)%N → (k < 97 ∨ 122 < k)%N →
  replace_char k 39 (map lower_char s) = map lower_char (replace_char k 39 s).
Proof.
  intros H1 H2. unfold replace_char. induction s as [|c s IH]; [reflexivity|].
  cbn [map]. rewrite IH, (lower_char_eqb c k H1 H2).
  destruct (c =? k)%N; reflexivity.
Qed.

Lemma lower_lower s : map lower_char (map lower_char s) = map lower_char s.
Proof.
  induction s as [|c s IH]; [reflexivity|]. cbn [map]. rewrite IH. f_equal.
  apply lower_char_fixed, lower_char_not_upper.
Qed.

Lemma lower_fixed s : Forall (λ c, is_upper c = false) s → map lower_char s = s.
Proof.
  induction 1 as [|c s Hc _ IH]; [reflexivity|].
  cbn [map]. rewrite IH, (lower_char_fixed c Hc). reflexivity.
Qed.

Section NormalForm.
Context `{Library}.

(** X9. Whatever the text, its normalisation holds ASCII characters only,
    none of them a capital letter or a backtick; its white space is single
    spaces; and it neither starts nor ends with white space. *)
Theorem normalized_shape s :
  Forall (λ c, normal_char c = true) (normalized s) ∧
  single_spaced (normalized s) = true ∧
  unpadded (normalized s).
Proof.
  unfold normalized. rewrite lower_map.
  set (w := sub_spaces false
              (replace_char 39 39 (replace_char 96 39
                 (replace_char 8217 39 (encode_ascii_ignore (nfkd s)))))).
  assert (Forall (λ c, (c < 128)%N ∧ c ≠ 96%N) w) as Fw.
  { apply sub_spaces_keeps; [split; [lia|discriminate]|].
    apply replace_char_keeps; [split; [lia|discriminate]|].
    apply Forall_and. split.
    - apply (replace_char_keeps (λ c, (c < 128)%N)); [lia|].
      apply (replace_char_keeps (λ c, (c < 128)%N)); [lia|].
      apply encode_ascii_ignore_ascii.
    - apply replace_char_gone. discriminate. }
  split; [|split].
  - apply Forall_map. eapply Forall_impl; [apply strip_keeps, Fw|].
    intros c [Hc H96]. unfold normal_char.
    rewrite lower_char_not_upper, (lower_char_eqb c 96) by lia.
    apply N.ltb_lt in Hc. pose proof (lower_char_ascii c) as Ha.
    rewrite <- !N.ltb_lt in Ha. rewrite (Ha Hc).
    destruct (N.eqb_spec c 96); [congruence|reflexivity].
  - rewrite single_spaced_lower. apply strip_single, sub_spaces_single.
  - apply unpadded_lower, strip_unpadded.
Qed.

Lemma normalized_fixed t :
  (∀ u, Forall (λ c, (c < 128)%N) u → nfkd u = u) →
  Forall (λ c, normal_char c = true) t → single_spaced t = true → unpadded t →
  normalized t = t.
Proof.
  intros Hascii Ft Hs Hu.
  assert (Forall (λ c, (c < 128)%N) t) as Fa.
  { eapply Forall_impl; [exact Ft|]. intros c Hc. unfold normal_char in Hc.
    apply andb_true_iff in Hc. destruct Hc as [Hc _].
    apply andb_true_iff in Hc. destruct Hc as [Hc _]. apply N.ltb_lt, Hc. }
  unfold normalized. rewrite (Hascii t Fa), (encode_ascii_ignore_fixed t Fa).
  rewrite (replace_char_fixed 8217 39 t);
    [|eapply Forall_impl; [exact Fa|]; intros c Hc; cbv beta in Hc; left; lia].
  rewrite (replace_char_fixed 96 39 t).
  2:{ eapply Forall_impl; [exact Ft|]. intros c Hc. cbv beta in Hc. left.
      unfold normal_char in Hc.
      apply andb_true_iff in Hc. destruct Hc as [_ Hc]. apply negb_true_iff in Hc.
      apply N.eqb_neq, Hc. }
  rewrite (replace_char_fixed 39 39 t);
    [|eapply Forall_impl; [exact Fa|]; intros c Hc; right; reflexivity].
  rewrite (sub_spaces_fixed t false Hs) by discriminate.
  rewrite (strip_fixed t Hu), lower_map. apply lower_fixed.
  eapply Forall_impl; [exact Ft|]. intros c Hc. unfold normal_char in Hc.
  apply andb_true_iff in Hc. destruct Hc as [Hc _].
  apply andb_true_iff in Hc. destruct Hc as [_ Hc]. apply negb_true_iff, Hc.
Qed.

(** X10. When NFKD leaves ASCII text as it is (as Unicode's does),
    normalising a normalised text changes nothing. *)
Theorem normalized_idempotent s :
  (∀ u, Forall (λ c, (c < 128)%N) u → nfkd u = u) →
  normalized (normalized s) = normalized s.
Proof.
  intros Hascii. destruct (normalized_shape s) as (Ft & Hs & Hu).
  apply normalized_fixed; assumption.
Qed.

(** X11. When NFKD leaves ASCII text as it is, the letter case of an ASCII
    text does not matter: the text and its lower case have the same
    normalisation. *)
Theorem normalized_ignores_case s :
  (∀ u, Forall (λ c, (c < 128)%N) u → nfkd u = u) →
  Forall (λ c, (c < 128)%N) s →
  normalized (lower s) = normalized s.
Proof.
  intros Hascii Fs. unfold normalized. change lower with (map lower_char).
  assert (Forall (λ c, (c < 128)%N) (map lower_char s)) as Fl
    by (apply Forall_map; eapply Forall_impl; [exact Fs|]; apply lower_char_ascii).
  rewrite (Hascii _ Fl), (Hascii _ Fs).
  rewrite (encode_ascii_ignore_fixed _ Fl), (encode_ascii_ignore_fixed _ Fs).
  rewrite (replace_char_lower 8217) by lia.
  rewrite (replace_char_lower 96) by lia.
  rewrite (replace_char_lower 39) by lia.
  rewrite sub_spaces_lower, strip_lower, lower_lower. reflexivity.
Qed.

End NormalForm.

(** ** More on the answer resolver *)

Lemma mapM_normalize_text_outcome items :
  ∀ `{Library},
    (∃ ns, mapM normalize_text items = ([], Ok ns))
    ∨ mapM normalize_text items = ([], Raise TypeError).
Proof.
  intros lib. induction items as [|v items IH]; [left; exists []; reflexivity|].
  cbn [mapM]. destruct v; try (right; reflexivity).
  unfold normalize_text at 1. cbn [as_str]. rewrite !bind_ret_l.
  destruct IH as [[ns ->]| ->]; [left|right; reflexivity].
  eexists. reflexivity.
Qed.

Section ResolverMore.
Context `{Library}.
Variable fill_algorithm : fill_strategy.

Lemma fill_loop_more_fuel fuel :
  ∀ entries i out fuel',
    fill_loop fuel fill_algorithm entries i = Some out → fuel ≤ fuel' →
    fill_loop fuel' fill_algorithm entries i = Some out.
Proof.
  induction fuel as [|fuel IH]; intros entries i out fuel'; [discriminate|].
  intros Hrun Hle. destruct fuel' as [|fuel']; [lia|]. cbn [fill_loop] in *.
  destruct (entries !! i) as [entry|]; [|exact Hrun].
  destruct (has_default entry); [apply IH; [exact Hrun|lia]|].
  destruct (resolve fill_algorithm entry) as [l [[entry' appended]|e]]; [|exact Hrun].
  destruct (fill_loop fuel fill_algorithm _ (S i)) as [r|] eqn:Hr; [|discriminate].
  rewrite (IH _ _ _ fuel' Hr) by lia. exact Hrun.
Qed.

Lemma fill_form_entries_run fuel entries l entries' :
  fill_form_entries fuel entries fill_algorithm = Some (l, Ok entries') →
  ∃ l1 rs xs,
    resolve_all fill_algorithm entries = (l1, Ok (rs, xs)) ∧ entries' = rs ++ xs.
Proof.
  intros Hrun. unfold fill_form_entries in Hrun.
  apply (fill_loop_more_fuel _ _ _ _ (fuel + S (2 * length entries))) in Hrun; [|lia].
  fold (fill_form_entries (fuel + S (2 * length entries)) entries fill_algorithm) in Hrun.
  rewrite fill_form_entries_two_pass in Hrun by lia.
  injection Hrun as Hrun. apply bind_Ok_inv in Hrun.
  destruct Hrun as (l1 & [rs xs] & l2 & Hall & Hret & _).
  injection Hret as _ <-. eauto.
Qed.

Lemma resolve_all_resolved es :
  ∀ l rs xs,
    resolve_all fill_algorithm es = (l, Ok (rs, xs)) →
    Forall2 (λ e r, (has_default e = true ∧ r = e)
                    ∨ (has_default e = false ∧ ∃ v, r = set_default e v)) es rs.
Proof.
  induction es as [|e es IH]; intros l rs xs; cbn [resolve_all].
  - intros [= _ <- _]. constructor.
  - destruct (has_default e) eqn:Hd; intros Hr.
    + apply bind_Ok_inv in Hr. destruct Hr as (? & [rs' xs'] & ? & Ha & Hr & _).
      injection Hr as _ <- _.
      constructor; [left; split; [first [exact Hd|reflexivity]|reflexivity]|eapply IH, Ha].
    + apply bind_Ok_inv in Hr. destruct Hr as (? & [e' xe] & ? & He & Hr & _).
      apply bind_Ok_inv in Hr. destruct Hr as (? & [rs' xs'] & ? & Ha & Hr & _).
      injection Hr as _ <- _. constructor; [|eapply IH, Ha].
      right. split; [first [exact Hd|reflexivity]|].
      destruct (resolve_inv _ _ _ _ _ He) as (v & -> & _). eauto.
Qed.

(** X12. After a run that ends without an exception, the list starts with
    the given descriptors in their order, each either left as it was (when
    its default was truthy) or changed in its default only; and every
    descriptor of the list, given or appended, has a default. *)
Theorem resolver_keeps_descriptors fuel entries l entries' :
  fill_form_entries fuel entries fill_algorithm = Some (l, Ok entries') →
  ∃ rs xs,
    entries' = rs ++ xs ∧
    Forall2 (λ e r, (has_default e = true ∧ r = e)
                    ∨ (has_default e = false ∧ ∃ v, r = set_default e v)) entries rs ∧
    Forall (λ d, is_Some (d_default_value d)) entries'.
Proof.
  intros Hrun. destruct (fill_form_entries_run _ _ _ _ Hrun) as (l1 & rs & xs & Hall & ->).
  pose proof (resolve_all_resolved _ _ _ _ Hall) as F2.
  exists rs, xs. split; [reflexivity|]. split; [exact F2|].
  apply Forall_app. split.
  - clear Hall Hrun. induction F2 as [|e r es rs Her _ IH]; [constructor|].
    constructor; [|exact IH].
    destruct Her as [[Hd ->]|[_ [v ->]]]; [|eexists; reflexivity].
    unfold has_default in Hd. destruct (d_default_value e); [eauto|discriminate].
  - eapply Forall_impl; [eapply resolve_all_appended, Hall|].
    intros d Hd. cbv beta in Hd. unfold has_default in Hd.
    destruct (d_default_value d); [eauto|discriminate].
Qed.

Lemma fill_form_entries_raises_at es1 entry es2 l1 r1 le x fuel :
  resolve_all fill_algorithm es1 = (l1, Ok r1) →
  has_default entry = false →
  resolve fill_algorithm entry = (le, Raise x) →
  2 * length (es1 ++ entry :: es2) < fuel →
  fill_form_entries fuel (es1 ++ entry :: es2) fill_algorithm = Some (l1 ++ le, Raise x).
Proof.
  intros H1 Hd He Hf. rewrite fill_form_entries_two_pass by exact Hf.
  rewrite resolve_all_app, H1. cbn [resolve_all]. rewrite Hd, He. reflexivity.
Qed.

(** X13. When the entries in front of an entry resolve and the resolution of
    that entry raises an exception, the run raises that exception; what was
    printed is what the entries in front printed and what the failing entry
    printed: the entries after it are not looked at. *)
Theorem resolver_aborts_at_first_error es1 entry es2 l1 r1 le x fuel :
  resolve_all fill_algorithm es1 = (l1, Ok r1) →
  has_default entry = false →
  resolve fill_algorithm entry = (le, Raise x) →
  2 * length (es1 ++ entry :: es2) < fuel →
  fill_form_entries fuel (es1 ++ entry :: es2) fill_algorithm = Some (l1 ++ le, Raise x).
Proof. apply fill_form_entries_raises_at. Qed.

Lemma resolve_non_string entry o a lf :
  d_options entry = Some o →
  fill_algorithm (d_type entry) (d_id entry) (if truthy o then o else VList [])
    (d_required entry) (d_container_name entry) = (lf, Ok a) →
  (∀ s, a ≠ VStr s) →
  ∃ l, resolve fill_algorithm entry = (l, Raise TypeError).
Proof.
  intros Ho Hf Ha. unfold resolve. rewrite Ho, bind_ret_l.
  destruct (slice_all (if truthy o then o else VList [])) as [ls [options|e]] eqn:Hs.
  - assert (ls = [] ∧ options = (if truthy o then o else VList [])) as [-> ->]
      by (destruct (if truthy o then o else VList []); try discriminate;
          injection Hs as <- <-; split; reflexivity).
    change ([], Ok (if truthy o then o else VList [])) with
      (ret (if truthy o then o else VList [])).
    rewrite bind_ret_l, Hf, bind_Ok_pair.
    destruct (iter (if truthy o then o else VList [])) as [li [items|e]] eqn:Hi.
    + assert (li = []) as -> by
        (destruct (if truthy o then o else VList []); try discriminate;
         injection Hi as <- _; reflexivity).
      change ([], Ok items) with (ret items). rewrite bind_ret_l.
      destruct (mapM_normalize_text_outcome items) as [[ns ->]| ->].
      * change ([], Ok ns) with (ret ns). rewrite bind_ret_l.
        destruct a; try (eexists; reflexivity). destruct (Ha s eq_refl).
      * eexists. reflexivity.
    + destruct (if truthy o then o else VList []); discriminate.
  - assert (e = TypeError) as -> by
      (destruct (if truthy o then o else VList []); try discriminate;
       injection Hs as _ <-; reflexivity).
    eexists. reflexivity.
Qed.

(** X14. An answer of the fill strategy that is not a string (a list of
    choices for a checkbox question, [None], a number) is never stored: when
    the entries in front resolve, the run raises [TypeError] at the entry. *)
Theorem non_string_answer_raises es1 entry es2 l1 r1 o a lf fuel :
  resolve_all fill_algorithm es1 = (l1, Ok r1) →
  has_default entry = false →
  d_options entry = Some o →
  fill_algorithm (d_type entry) (d_id entry) (if truthy o then o else VList [])
    (d_required entry) (d_container_name entry) = (lf, Ok a) →
  (∀ s, a ≠ VStr s) →
  2 * length (es1 ++ entry :: es2) < fuel →
  ∃ l, fill_form_entries fuel (es1 ++ entry :: es2) fill_algorithm
       = Some (l, Raise TypeError).
Proof.
  intros H1 Hd Ho Hf Ha Hfuel.
  destruct (resolve_non_string _ _ _ _ Ho Hf Ha) as [le He].
  exists (l1 ++ le). eapply fill_form_entries_raises_at; eassumption.
Qed.

(** X15. A descriptor whose options are [None] or empty (a free-text
    question) gets the answer of the fill strategy as it is, empty or not, as
    its default, and nothing is appended for it. *)
Theorem free_text_answer_stored entry o cand lf es1 es2 fuel :
  has_default entry = false →
  d_options entry = Some o → truthy o = false →
  fill_algorithm (d_type entry) (d_id entry) (VList [])
    (d_required entry) (d_container_name entry) = (lf, Ok (VStr cand)) →
  2 * length (es1 ++ entry :: es2) < fuel →
  fill_form_entries fuel (es1 ++ entry :: es2) fill_algorithm =
  Some (r1 <- resolve_all fill_algorithm es1 ;;
        (lf ++ [MsgComparing (normalized cand) []], Ok tt) ;;;
        r2 <- resolve_all fill_algorithm es2 ;;
        ret (fst r1 ++ set_default entry (VStr cand) :: fst r2 ++ snd r1 ++ snd r2)).
Proof.
  intros Hd Ho To Hf Hfuel.
  assert (resolve fill_algorithm entry
          = (lf ++ [MsgComparing (normalized cand) []],
             Ok (set_default entry (VStr cand), []))) as Hr.
  { unfold resolve. rewrite Ho, bind_ret_l, To. cbn [slice_all].
    rewrite bind_ret_l, Hf, bind_Ok_pair. cbn [iter]. rewrite bind_ret_l.
    cbn [mapM]. rewrite bind_ret_l. unfold normalize_text. cbn [as_str].
    rewrite !bind_ret_l. unfold print. rewrite bind_Ok_pair.
    cbn [truthy andb]. rewrite !andb_false_r. cbn [ret fst snd andb].
    rewrite app_nil_r. reflexivity. }
  rewrite (fill_form_entries_resolved_at _ _ _ _ _ _ _ _ Hd Hr Hfuel). reflexivity.
Qed.

Lemma mapM_normalize_chars s :
  mapM normalize_text (map (λ c, VStr [c]) s) = ret (map (λ c, normalized [c]) s).
Proof.
  induction s as [|c s IH]; [reflexivity|].
  cbn [map mapM]. rewrite IH. reflexivity.
Qed.

(** X16. The email pseudo-field has the string "email address" where question
    descriptors have their options, and the resolver takes its characters for
    the options: a non-empty answer whose normalisation is none of these
    characters (any address) is not stored in the field, which gets
    "__other_option__"; the address goes to an appended descriptor of id
    "emailAddress.other_option_response". *)
Theorem email_answer_goes_to_other cand lf es1 es2 fuel :
  fill_algorithm (d_type email_entry) (d_id email_entry) (VStr (py "email address"))
    (d_required email_entry) (d_container_name email_entry) = (lf, Ok (VStr cand)) →
  cand ≠ [] →
  normalized cand ∉ map (λ c, normalized [c]) (py "email address") →
  2 * length (es1 ++ email_entry :: es2) < fuel →
  fill_form_entries fuel (es1 ++ email_entry :: es2) fill_algorithm =
  Some (r1 <- resolve_all fill_algorithm es1 ;;
        (lf ++ [MsgComparing (normalized cand)
                  (map (λ c, normalized [c]) (py "email address"))], Ok tt) ;;;
        r2 <- resolve_all fill_algorithm es2 ;;
        ret (fst r1 ++ set_default email_entry (VStr (py "__other_option__")) :: fst r2
             ++ snd r1 ++ [other_option_entry email_entry (VStr cand)] ++ snd r2)) ∧
  d_id (other_option_entry email_entry (VStr cand))
    = VStr (py "emailAddress.other_option_response").
Proof.
  intros Hf Hc Hin Hfuel. split; [|reflexivity].
  assert (resolve fill_algorithm email_entry
          = (lf ++ [MsgComparing (normalized cand)
                      (map (λ c, normalized [c]) (py "email address"))],
             Ok (set_default email_entry (VStr (py "__other_option__")),
                 [other_option_entry email_entry (VStr cand)]))) as Hr.
  { unfold resolve. cbn [d_options email_entry].
    rewrite bind_ret_l.
    change (if truthy (VStr (py "email address")) then VStr (py "email address")
            else VList []) with (VStr (py "email address")).
    cbn [slice_all]. rewrite bind_ret_l, Hf, bind_Ok_pair. cbn [iter].
    rewrite bind_ret_l, mapM_normalize_chars, bind_ret_l.
    unfold normalize_text. cbn [as_str]. rewrite !bind_ret_l.
    unfold print. rewrite bind_Ok_pair.
    assert (truthy (VStr cand) = true) as -> by (destruct cand; [destruct Hc|]; reflexivity).
    change (truthy (VStr (py "email address"))) with true.
    rewrite bool_decide_eq_false_2 by exact Hin.
    cbn [andb ret fst snd]. rewrite app_nil_r. reflexivity. }
  rewrite (fill_form_entries_resolved_at _ email_entry _ _ _ _ _ _ eq_refl Hr Hfuel).
  reflexivity.
Qed.

End ResolverMore.

(** ** More sample runs *)

Lemma latin1_nfkd_ascii u : Forall (λ c, (c < 128)%N) u → latin1_nfkd u = u.
Proof.
  unfold latin1_nfkd. induction 1 as [|c u Hc _ IH]; [reflexivity|].
  cbn [flat_map]. rewrite IH.
  assert (latin1_decomposition c = [c]) as ->; [|reflexivity].
  destruct c as [|p]; [reflexivity|].
  do 8 (destruct p as [p|p|]; try reflexivity; try lia).
Qed.

Lemma response_url_of_view_link_sample :
  (47%N ∉ py "?usp=sf_link") ∧
  get_form_response_url (py "https://docs.google.com/forms/d/e/abc/viewform?usp=sf_link")
  = py "https://docs.google.com/forms/d/e/abc/formResponse?usp=sf_link/formResponse".
Proof.
  assert (47%N ∉ py "?usp=sf_link") as Hq.
  { assert (bool_decide (47%N ∈ py "?usp=sf_link") = false) as Hb by (vm_compute; reflexivity).
    apply bool_decide_eq_false_1 in Hb. exact Hb. }
  split; [exact Hq|].
  exact (response_url_of_view_link (py "https://docs.google.com/forms/d/e/abc")
           (py "?usp=sf_link") Hq).
Defined.

Lemma parse_entry_descriptors_sample :
  ∃ ds, parse_entry false choice_entry = ([], Ok ds) ∧
        Forall (parsed_from (VStr (py "Colour")) (VInt 2)) ds ∧ length ds = 1 ∧
        Forall2 built_from
          [VList [VInt 102; VList [VList [VStr (py "Red")]; VList [VStr (py "Green")]];
                  VInt 0]] ds.
Proof.
  eexists. split; [reflexivity|].
  destruct (parse_entry_descriptors false choice_entry [] _ eq_refl)
    as (n & t & e4 & H1 & H3 & H4 & F & Hm).
  injection H1 as <-. injection H3 as <-. injection H4 as <-.
  split; [exact F|]. destruct Hm as (_ & Hlen & kept & _ & F2 & Hall).
  split; [exact (Hlen eq_refl)|]. rewrite (Hall eq_refl) in F2. exact F2.
Defined.

Lemma normalized_idempotent_sample :
  @normalized test_library (@normalized test_library cafe_accented)
  = @normalized test_library cafe_accented.
Proof. exact (@normalized_idempotent test_library cafe_accented latin1_nfkd_ascii). Defined.

Lemma normalized_ignores_case_sample :
  @normalized test_library (lower (py "Blue")) = @normalized test_library (py "Blue").
Proof.
  apply (@normalized_ignores_case test_library (py "Blue") latin1_nfkd_ascii).
  assert (bool_decide (Forall (λ c, (c < 128)%N) (py "Blue")) = true) as Hb
    by (vm_compute; reflexivity).
  apply bool_decide_eq_true_1 in Hb. exact Hb.
Defined.

Lemma resolver_keeps_descriptors_sample :
  ∃ rs xs,
    [set_default red_green_field (VStr (py "__other_option__"));
     @other_option_entry test_library red_green_field (VStr (py "Purple"))] = rs ++ xs ∧
    Forall2 (λ e r, (has_default e = true ∧ r = e)
                    ∨ (has_default e = false ∧ ∃ v, r = set_default e v))
      [red_green_field] rs ∧
    Forall (λ d, is_Some (d_default_value d))
      [set_default red_green_field (VStr (py "__other_option__"));
       @other_option_entry test_library red_green_field (VStr (py "Purple"))].
Proof.
  exact (@resolver_keeps_descriptors test_library (constant_answer (py "Purple")) 3
           [red_green_field] [MsgComparing (py "purple") [py "red"; py "green"]] _ eq_refl).
Defined.

Lemma resolver_aborts_at_first_error_sample :
  @fill_form_entries test_library 7 ([rgb_field] ++ keyless_field :: [red_green_field])
    (constant_answer (py "blue"))
  = Some ([MsgComparing (py "blue") [py "red"; py "green"; py "blue"]] ++ [],
          Raise KeyError).
Proof.
  apply (@resolver_aborts_at_first_error test_library (constant_answer (py "blue"))
           [rgb_field] keyless_field [red_green_field] _
           ([set_default rgb_field (VStr (py "Blue"))], []));
    [reflexivity|reflexivity|reflexivity|simpl; lia].
Defined.

Lemma non_string_answer_raises_sample :
  ∃ l, @fill_form_entries test_library 3 ([] ++ rgb_field :: []) every_option
       = Some (l, Raise TypeError).
Proof.
  apply (@non_string_answer_raises test_library every_option [] rgb_field [] [] ([], [])
           (VList (map VStr [py "Red"; py "Green"; py "Blue"]))
           (VList (map VStr [py "Red"; py "Green"; py "Blue"])) []);
    [reflexivity|reflexivity|reflexivity|reflexivity|discriminate|simpl; lia].
Defined.

(** A free-text field and the answer "hello": the default is "hello". *)
Lemma free_text_answer_stored_sample :
  @fill_form_entries test_library 3 [text_field] (constant_answer (py "hello"))
  = Some ([MsgComparing (py "hello") []], Ok [set_default text_field (VStr (py "hello"))]).
Proof.
  exact (@free_text_answer_stored test_library (constant_answer (py "hello"))
           text_field VNone (py "hello") [] [] [] 3 eq_refl eq_refl eq_refl eq_refl
           ltac:(simpl; lia)).
Defined.

Lemma email_answer_goes_to_other_sample :
  ∃ l, @fill_form_entries test_library 3 [email_entry] (constant_answer (py "a@b.com"))
       = Some (l, Ok [set_default email_entry (VStr (py "__other_option__"));
                      {| d_id := VStr (py "emailAddress.other_option_response");
                         d_container_name := VStr (py "Email Address (Other)");
                         d_type := VStr (py "text"); d_required := VBool true;
                         d_name := None; d_options := None;
                         d_default_value := Some (VStr (py "a@b.com")) |}]).
Proof.
  destruct (@email_answer_goes_to_other test_library (constant_answer (py "a@b.com"))
              (py "a@b.com") [] [] [] 3) as [Hrun _].
  - reflexivity.
  - discriminate.
  - assert (bool_decide (@normalized test_library (py "a@b.com")
                           ∈ map (λ c, @normalized test_library [c]) (py "email address"))
            = false) as Hb by (vm_compute; reflexivity).
    apply bool_decide_eq_false_1 in Hb. exact Hb.
  - simpl. lia.
  - eexists. exact Hrun.
Defined.

(** ** The request for a form *)

Section SubmitRequestFacts.
Context `{Library}.
Variable generate_form_request_dict : list descriptor → bool → result text.
Variable writable : text → bool.


Lemma request_of_entries_returned log entries output with_comment log' t :
  request_of_entries generate_form_request_dict writable log entries output with_comment
  = (log', Returned (Some t)) →
  output = py "return" ∧
  ∃ es, entries = Some es ∧ es ≠ [] ∧ generate_form_request_dict es with_comment = Ok t.
Proof.
  unfold request_of_entries. destruct entries as [[|entry rest]|]; try discriminate.
  destruct (generate_form_request_dict (entry :: rest) with_comment) as [result|e] eqn:Hg;
    [|discriminate].
  destruct (decide (output = py "console")); [discriminate|].
  destruct (decide (output = py "return")) as [->|].
  - intros [= _ <-]. split; [reflexivity|]. exists (entry :: rest).
    split; [reflexivity|]. split; [discriminate|exact Hg].
  - destruct (writable output); discriminate.
Qed.

(** X18. [get_form_submit_request] returns the request text only in the
    "return" mode, and the text is then what the generator made of a
    non-empty list of descriptors: the parsed ones when no fill algorithm is
    given, the ones [fill_form_entries] returned otherwise. In the console
    and file modes, and for an empty list of descriptors, it returns
    [None]. *)
Theorem request_returned_only_in_return_mode fuel v output only_required with_comment
    fill_algorithm log t :
  get_form_submit_request generate_form_request_dict writable fuel v output
    only_required with_comment fill_algorithm = Some (log, Returned (Some t)) →
  output = py "return" ∧
  ∃ l parsed es,
    parse_form_entries v only_required = (l, Ok (Some parsed)) ∧
    es ≠ [] ∧ generate_form_request_dict es with_comment = Ok t ∧
    match fill_algorithm with
    | None => es = parsed
    | Some f => ∃ l', fill_form_entries fuel parsed f = Some (l', Ok es)
    end.
Proof.
  unfold get_form_submit_request.
  destruct (parse_form_entries v only_required) as [l [entries|e]]; [|discriminate].
  destruct fill_algorithm as [f|].
  - destruct entries as [parsed|]; [|discriminate].
    destruct (fill_form_entries fuel parsed f) as [[l' [es'|e]]|] eqn:Hfill;
      try discriminate.
    intros Hr. apply (inj Some) in Hr. apply request_of_entries_returned in Hr.
    destruct Hr as (Ho & es & [= <-] & Hne & Hg). split; [exact Ho|].
    exists l, parsed, es'. repeat split; try assumption. eauto.
  - intros Hr. apply (inj Some) in Hr. apply request_of_entries_returned in Hr.
    destruct Hr as (Ho & es & -> & Hne & Hg). split; [exact Ho|].
    exists l, es, es. repeat split; assumption.
Qed.

End SubmitRequestFacts.

(** ** Filling from JSON values *)

Lemma eq_int_exclusive v a b : eq_int v a = true → a ≠ b → eq_int v b = false.
Proof.
  destruct v as [|c|z|[| |q]|s|l|d]; simpl; try discriminate.
  - intros Ha Hab. apply Z.eqb_eq in Ha. apply Z.eqb_neq. lia.
  - intros Ha Hab. apply Z.eqb_eq in Ha. apply Z.eqb_neq. lia.
  - intros Ha Hab. apply Qeq_bool_iff in Ha.
    destruct (Qeq_bool q (inject_Z b)) eqn:Hb; [|reflexivity].
    apply Qeq_bool_iff in Hb. unfold Qeq in Ha, Hb. cbn [Qnum Qden inject_Z] in Ha, Hb.
    pose proof (Pos2Z.is_pos (Qden q)). nia.
Qed.

Lemma getitem_positions l n ps :
  n = length l → n ≠ 0 →
  ∃ picked, mapM (λ p, getitem (VList l) (p mod n)) ps = ([], Ok picked).
Proof.
  intros -> Hn. induction ps as [|p ps [picked IH]]; [exists []; reflexivity|].
  cbn [mapM]. rewrite IH.
  destruct (lookup_lt_is_Some_2 l (p mod length l)) as [x Hx];
    [apply Nat.mod_upper_bound; exact Hn|].
  cbn [getitem]. rewrite Hx. exists (x :: picked). reflexivity.
Qed.

Lemma getitem_str_positions s n ps :
  n = length s → n ≠ 0 →
  ∃ picked, mapM (λ p, getitem (VStr s) (p mod n)) ps = ([], Ok picked).
Proof.
  intros -> Hn. induction ps as [|p ps [picked IH]]; [exists []; reflexivity|].
  cbn [mapM]. rewrite IH.
  destruct (lookup_lt_is_Some_2 s (p mod length s)) as [x Hx];
    [apply Nat.mod_upper_bound; exact Hn|].
  cbn [getitem].
  match goal with
  | |- context [@lookup ?K ?A ?M ?I ?i ?m] =>
      assert (@lookup K A M I i m = Some x) as -> by exact Hx
  end.
  exists (VStr [x] :: picked). reflexivity.
Qed.

Section AutofillFacts.
Context `{Library}.

Lemma fill_with_json_values_fallback d json_values type_id entry_id options required
    entry_name :
  unanswered json_values entry_id →
  fill_with_json_values d json_values type_id entry_id options required entry_name =
  if eq_int type_id 0 || eq_int type_id 1 then
    ret (VStr (if negb (truthy required) then [] else py "Ok!"))
  else if is_choice_type type_id then random_choice d options
  else if eq_int type_id 4 then random_sample d options
  else if eq_int type_id 9 then ret (VStr (today d))
  else if eq_int type_id 10 then ret (VStr (now d))
  else ret (VStr []).
Proof.
  intros Hu. unfold fill_with_json_values.
  assert ((if truthy json_values
           then contains json_values (py "entry." ++ py_str entry_id)
           else ret false) = ret false) as ->
    by (destruct Hu as [-> | ->]; [reflexivity|destruct (truthy json_values); reflexivity]).
  rewrite bind_ret_l. reflexivity.
Qed.

Lemma checkbox_fallback d json_values type_id entry_id options required entry_name :
  unanswered json_values entry_id → eq_int type_id 4 = true →
  fill_with_json_values d json_values type_id entry_id options required entry_name
  = random_sample d options.
Proof.
  intros Hu Ht. rewrite fill_with_json_values_fallback by exact Hu.
  unfold is_choice_type.
  rewrite (eq_int_exclusive _ 4 0), (eq_int_exclusive _ 4 1), (eq_int_exclusive _ 4 2),
    (eq_int_exclusive _ 4 3), (eq_int_exclusive _ 4 5), (eq_int_exclusive _ 4 7), Ht
    by (exact Ht || lia).
  reflexivity.
Qed.

Lemma resolve_checkbox fill_algorithm json_values entry o :
  drawn_from json_values fill_algorithm →
  eq_int (d_type entry) 4 = true →
  d_options entry = Some o →
  unanswered json_values (d_id entry) →
  ∃ l, resolve fill_algorithm entry
       = (l, Raise (if truthy o then TypeError else ValueError)).
Proof.
  intros Hf Ht Ho Hu.
  destruct (Hf (d_type entry) (d_id entry) (if truthy o then o else VList [])
              (d_required entry) (d_container_name entry)) as [d Hd].
  rewrite checkbox_fallback in Hd by assumption.
  destruct (truthy o) eqn:Hto.
  - destruct o as [|c|z|f|s|os|kv]; try discriminate Hto;
      try (exists []; unfold resolve; rewrite Ho, bind_ret_l, Hto; reflexivity).
    + destruct s as [|c s]; [discriminate|].
      destruct (getitem_str_positions (c :: s) (length (c :: s)) (drawn_sample d) eq_refl)
        as [picked Hp]; [discriminate|].
      apply (resolve_non_string fill_algorithm entry (VStr (c :: s)) (VList picked) []);
        [exact Ho| |discriminate].
      cbn [truthy]. rewrite Hd. unfold random_sample. cbn [len]. rewrite bind_ret_l.
      rewrite decide_False by discriminate. rewrite Hp. reflexivity.
    + destruct os as [|x os]; [discriminate|].
      destruct (getitem_positions (x :: os) (length (x :: os)) (drawn_sample d) eq_refl)
        as [picked Hp]; [discriminate|].
      apply (resolve_non_string fill_algorithm entry (VList (x :: os)) (VList picked) []);
        [exact Ho| |discriminate].
      cbn [truthy]. rewrite Hd. unfold random_sample. cbn [len]. rewrite bind_ret_l.
      rewrite decide_False by discriminate. rewrite Hp. reflexivity.
  - exists []. unfold resolve. rewrite Ho, bind_ret_l, Hto. cbn [slice_all].
    rewrite bind_ret_l, Hd. reflexivity.
Qed.

(** X19. A checkbox question (type 4) for which the JSON values hold nothing
    can never be filled: [fill_with_json_values] answers a list (or
    [randint] fails on the empty range), and the resolver normalises the
    answer as a string. When the entries in front resolve, the run raises
    TypeError at the question if it has options, ValueError if not. *)
Theorem checkbox_without_answer_raises fill_algorithm json_values es1 entry es2 l1 r1 o
    fuel :
  drawn_from json_values fill_algorithm →
  resolve_all fill_algorithm es1 = (l1, Ok r1) →
  has_default entry = false →
  eq_int (d_type entry) 4 = true →
  d_options entry = Some o →
  unanswered json_values (d_id entry) →
  2 * length (es1 ++ entry :: es2) < fuel →
  ∃ l, fill_form_entries fuel (es1 ++ entry :: es2) fill_algorithm
       = Some (l, Raise (if truthy o then TypeError else ValueError)).
Proof.
  intros Hf H1 Hd Ht Ho Hu Hfuel.
  destruct (resolve_checkbox _ _ _ _ Hf Ht Ho Hu) as [le Hr].
  exists (l1 ++ le). exact (fill_form_entries_raises_at _ _ _ _ _ _ _ _ _ H1 Hd Hr Hfuel).
Qed.

End AutofillFacts.

Section ChoiceFallback.
Context `{Library}.
Variable fill_algorithm : fill_strategy.
Variable json_values : value.
Hypothesis drawn : drawn_from json_values fill_algorithm.

Lemma resolve_open_choice entry :
  open_choice json_values entry →
  ∃ l opts o,
    d_options entry = Some (VList (map VStr opts)) ∧ o ∈ opts ∧
    resolve fill_algorithm entry = (l, Ok (set_default entry (VStr o), [])).
Proof.
  intros (Hd & Ht & Hu & opts & Ho & Hne & Hopts).
  destruct (drawn (d_type entry) (d_id entry) (VList (map VStr opts))
              (d_required entry) (d_container_name entry)) as [d Hf].
  rewrite fill_with_json_values_fallback in Hf by exact Hu.
  assert (eq_int (d_type entry) 0 || eq_int (d_type entry) 1 = false) as H01.
  { unfold is_choice_type in Ht.
    repeat (apply orb_true_iff in Ht; destruct Ht as [Ht|Ht]);
      apply orb_false_iff; split; eapply eq_int_exclusive; try exact Ht; lia. }
  rewrite H01, Ht in Hf. unfold random_choice in Hf. cbn [len] in Hf.
  rewrite bind_ret_l, length_map in Hf.
  rewrite decide_False in Hf by (destruct opts; [destruct Hne; reflexivity|discriminate]).
  destruct (lookup_lt_is_Some_2 opts (drawn_choice d mod length opts)) as [cand Hc].
  { apply Nat.mod_upper_bound. destruct opts; [destruct Hne; reflexivity|discriminate]. }
  cbn [getitem] in Hf. rewrite list_lookup_fmap, Hc in Hf.
  cbn [fmap option_fmap option_map] in Hf.
  pose proof (list_elem_of_lookup_2 _ _ _ Hc) as Hin.
  destruct (resolve_match fill_algorithm entry opts cand [] Ho Hf) as (k & o & Hk & _ & _ & Hr).
  - rewrite Forall_forall in Hopts. exact (Hopts cand Hin).
  - apply list_elem_of_fmap. exists cand. split; [reflexivity|exact Hin].
  - exists ([] ++ [MsgComparing (normalized cand) (map normalized opts)]), opts, o.
    split; [exact Ho|]. split; [exact (list_elem_of_lookup_2 _ _ _ Hk)|exact Hr].
Qed.

Lemma resolve_all_open_choices entries :
  Forall (λ e, has_default e = true ∨ open_choice json_values e) entries →
  ∃ l rs,
    resolve_all fill_algorithm entries = (l, Ok (rs, [])) ∧
    Forall2 (λ e r, (has_default e = true ∧ r = e)
                    ∨ (∃ opts o, d_options e = Some (VList (map VStr opts)) ∧ o ∈ opts
                                 ∧ r = set_default e (VStr o))) entries rs.
Proof.
  induction 1 as [|e es He _ (l & rs & IH & F)].
  - exists [], []. split; [reflexivity|constructor].
  - cbn [resolve_all]. destruct (has_default e) eqn:Hd.
    + rewrite IH. eexists _, (e :: rs). split; [reflexivity|].
      constructor; [left; split; [first [exact Hd|reflexivity]|reflexivity]|exact F].
    + destruct He as [He|He]; [discriminate|].
      destruct (resolve_open_choice e He) as (le & opts & o & Ho & Hin & Hr).
      rewrite Hr, bind_Ok_pair, IH. eexists _, (set_default e (VStr o) :: rs).
      split; [reflexivity|]. constructor; [right; eauto|exact F].
Qed.

(** X20. The random fallback never leaves the options: in a run over
    entries that have a default or are choice questions (types 2, 3, 5, 7,
    labels not empty) for which the JSON values hold nothing, every question
    gets one of its own options as default, the run raises nothing, and no
    "(Other)" entry is appended: the list keeps its length. *)
Theorem random_fallback_picks_options fuel entries :
  Forall (λ e, has_default e = true ∨ open_choice json_values e) entries →
  2 * length entries < fuel →
  ∃ l rs,
    fill_form_entries fuel entries fill_algorithm = Some (l, Ok rs) ∧
    Forall2 (λ e r, (has_default e = true ∧ r = e)
                    ∨ (∃ opts o, d_options e = Some (VList (map VStr opts)) ∧ o ∈ opts
                                 ∧ r = set_default e (VStr o))) entries rs.
Proof.
  intros Hes Hfuel. destruct (resolve_all_open_choices entries Hes) as (l & rs & Hr & F).
  exists l, rs. split; [|exact F].
  rewrite fill_form_entries_two_pass by exact Hfuel. rewrite Hr.
  cbn [bind ret fst snd]. rewrite !app_nil_r. reflexivity.
Qed.

End ChoiceFallback.

Section RequestBody.
Context `{Library}.
Variable generate_form_request_dict : list descriptor → bool → result text.
Variable writable : text → bool.

(** X24. For a form without entries, [generate_request_body] raises
    TypeError: on a dump that [parse_form_entries] rejects, from the loop of
    [fill_form_entries] over [None]; on a dump with no descriptor at all
    (only headings, or no required question under the filter), from
    [json.loads(None)], as [get_form_submit_request] returns [None]. *)
Theorem request_body_without_entries fuel v only_required fill_algorithm l entries :
  parse_form_entries v only_required = (l, Ok entries) →
  entries = None ∨ entries = Some [] →
  0 < fuel →
  ∃ log, generate_request_body generate_form_request_dict writable fuel v only_required
           fill_algorithm = Some (log, Raised TypeError).
Proof.
  intros Hp He Hfuel. unfold generate_request_body, get_form_submit_request. rewrite Hp.
  destruct He as [-> | ->].
  - eexists. reflexivity.
  - destruct fuel as [|fuel]; [lia|]. eexists. reflexivity.
Qed.

End RequestBody.

(** ** The responses of the model *)

Lemma strip_padded a x b :
  Forall (λ c, is_space c = true) a → Forall (λ c, is_space c = true) b →
  unpadded x → strip (a ++ x ++ b) = x.
Proof.
  intros Fa Fb [Hh Hl]. unfold strip.
  destruct x as [|c x].
  - cbn [app]. assert (∀ w, Forall (λ c, is_space c = true) w → skip_spaces w = []) as Hw.
    { induction 1 as [|y w Hy _ IH]; [reflexivity|]. simpl. rewrite Hy. exact IH. }
    rewrite (Hw (a ++ b)) by (apply Forall_app; split; assumption). reflexivity.
  - cbn [head_not_space] in Hh. apply negb_true_iff in Hh.
    cbn [app]. rewrite (skip_spaces_app a c (x ++ b) Fa Hh).
    change (c :: x ++ b) with ((c :: x) ++ b). rewrite rev_app_distr.
    destruct (rev (c :: x)) as [|z r] eqn:Hr.
    { apply (f_equal (@length N)) in Hr. rewrite length_rev in Hr. discriminate. }
    cbn [head_not_space] in Hl. apply negb_true_iff in Hl.
    rewrite (skip_spaces_app (rev b) z r (List.Forall_rev Fb) Hl), <- Hr.
    apply rev_involutive.
Qed.

Section Responses.
Context `{Library}.

(** X21. A content that is the text [body] between the markers of a json
    code fence, with any white space around the fence, gives what [body]
    gives by itself (the same responses and the same printed lines), as long
    as [body] is not in turn a fenced text. *)
Theorem fenced_content_unwrapped a body b :
  Forall (λ c, is_space c = true) a → Forall (λ c, is_space c = true) b →
  startswith (strip body) (py "```json") = false →
  call_gpt4 (a ++ py "```json" ++ body ++ py "```" ++ b) = call_gpt4 body.
Proof.
  intros Fa Fb Hs. unfold call_gpt4.
  assert (strip (a ++ py "```json" ++ body ++ py "```" ++ b)
          = py "```json" ++ body ++ py "```") as ->.
  { rewrite !(app_assoc _ _ b), <- !(app_assoc a).
    apply strip_padded; [exact Fa|exact Fb|].
    split; [reflexivity|]. rewrite !rev_app_distr. reflexivity. }
  assert (startswith (py "```json" ++ body ++ py "```") (py "```json") = true) as ->
    by (unfold startswith; rewrite strip_prefix_app; reflexivity).
  assert (endswith (py "```json" ++ body ++ py "```") (py "```") = true) as ->
    by (apply endswith_spec; exists (py "```json" ++ body); rewrite <- app_assoc; reflexivity).
  rewrite Hs. cbn [andb].
  assert (drop 7 (take (length (py "```json" ++ body ++ py "```") - 3)
                    (py "```json" ++ body ++ py "```")) = body) as ->.
  { rewrite (app_assoc _ body), take_app_length'.
    - apply (drop_app_length' (py "```json")). reflexivity.
    - rewrite !length_app. change (length (py "```")) with 3. lia. }
  reflexivity.
Qed.

Lemma collect_responses_reaches contents total n :
  ∀ i all_responses fuel,
    (∀ j, i ≤ j ≤ i + n → ∃ log batch, call_gpt4 (contents j) = (log, Ok batch)) →
    (Z.of_nat (length (all_responses
                       ++ flat_map (λ j, responses (call_gpt4 (contents j))) (seq i n)))
     < total)%Z →
    (total ≤ Z.of_nat (length (all_responses
                       ++ flat_map (λ j, responses (call_gpt4 (contents j))) (seq i (S n)))))%Z →
    n + 1 < fuel →
    collect_responses fuel contents i all_responses total =
    Some (flat_map (λ j, fst (call_gpt4 (contents j))) (seq i (S n)),
          Ok (take (Z.to_nat total)
                (all_responses
                 ++ flat_map (λ j, responses (call_gpt4 (contents j))) (seq i (S n))))).
Proof.
  induction n as [|n IH]; intros i all_responses fuel Hret Hlt Hge Hfuel.
  - destruct fuel as [|[|fuel]]; [lia|lia|].
    cbn [seq flat_map] in *. rewrite !app_nil_r in *.
    cbn [collect_responses].
    destruct (Hret i ltac:(lia)) as (log & batch & Hcall). rewrite Hcall in *.
    cbn [fst snd responses] in *.
    rewrite (proj2 (Z.ltb_lt _ _)) by exact Hlt.
    rewrite (proj2 (Z.leb_le _ _)) by exact Hge.
    assert (length (take (Z.to_nat total) (all_responses ++ batch)) = Z.to_nat total) as Hl
      by (rewrite length_take; lia).
    rewrite (proj2 (Z.ltb_ge _ _)) by lia.
    cbn [fmap option_fmap option_map fst snd]. rewrite app_nil_r. reflexivity.
  - destruct fuel as [|fuel]; [lia|].
    cbn [collect_responses]. cbn [seq flat_map] in Hlt, Hge.
    change (seq i (S (S n))) with (i :: seq (S i) (S n)). cbn [flat_map].
    destruct (Hret i ltac:(lia)) as (log & batch & Hcall). rewrite Hcall in *.
    cbn [fst snd responses] in *.
    rewrite !app_assoc in Hlt, Hge. rewrite !(app_assoc all_responses).
    rewrite (proj2 (Z.ltb_lt _ _)) by (rewrite !length_app in Hlt; lia).
    rewrite (proj2 (Z.leb_gt _ _)) by (rewrite length_app in Hlt; lia).
    rewrite (IH (S i) (all_responses ++ batch) fuel);
      [reflexivity| |assumption|assumption|lia].
    intros j Hj. apply Hret. lia.
Qed.

(** X22. When the first [n + 1] calls return, the responses of the first
    [n] of them are fewer than [total_responses] and those of the first
    [n + 1] are enough, the loop of [fill_with_llm] ends after [n + 1] calls
    with the first [total_responses] responses, in the order received:
    exactly that many, the surplus of the last batch being dropped. *)
Theorem collected_responses contents total_responses n fuel :
  calls_return contents n →
  (Z.of_nat (length (batches contents n)) < total_responses)%Z →
  (total_responses ≤ Z.of_nat (length (batches contents (S n))))%Z →
  n + 1 < fuel →
  ∃ all_responses,
    collect_responses fuel contents 0 [] total_responses
    = Some (batch_lines contents (S n), Ok all_responses) ∧
    all_responses = take (Z.to_nat total_responses) (batches contents (S n)) ∧
    Z.of_nat (length all_responses) = total_responses.
Proof.
  intros Hret Hlt Hge Hfuel. eexists. split; [|split; [reflexivity|]].
  - apply (collect_responses_reaches contents total_responses n 0 [] fuel);
      [|exact Hlt|exact Hge|exact Hfuel].
    intros j Hj. apply Hret. lia.
  - rewrite length_take. lia.
Qed.

(** X23. The loop of [fill_with_llm] has no bound on the number of calls:
    when every call returns no response (the content does not decode, or is
    not an array, or is the empty array) and [total_responses] is positive,
    the loop never ends. *)
Theorem no_responses_no_end contents total_responses :
  (∀ i, ∃ log, call_gpt4 (contents i) = (log, Ok [])) →
  (0 < total_responses)%Z →
  ∀ fuel i, collect_responses fuel contents i [] total_responses = None.
Proof.
  intros Hempty Hpos fuel. induction fuel as [|fuel IH]; intros i; [reflexivity|].
  cbn [collect_responses]. destruct (Hempty i) as [log ->].
  cbn [app length].
  rewrite (proj2 (Z.ltb_lt _ _)) by exact Hpos.
  rewrite (proj2 (Z.leb_gt _ _)) by exact Hpos.
  rewrite IH. reflexivity.
Qed.

End Responses.

(** ** Sample runs of the request and of the autofill *)


(** A form with one short-answer question, no fill strategy, "return" mode. *)
Lemma request_returned_only_in_return_mode_sample :
  py "return" = py "return" ∧
  ∃ l parsed es,
    parse_form_entries (sample_dump [short_answer_entry] 1) false
    = (l, Ok (Some parsed)) ∧
    es ≠ [] ∧ count_generator es false = Ok (py "1") ∧ es = parsed.
Proof.
  apply (@request_returned_only_in_return_mode test_library count_generator read_only 1
           (sample_dump [short_answer_entry] 1) (py "return") false false None
           [PrintedEntries (Some [{| d_id := VInt 101; d_container_name := VStr (py "Name");
                                     d_type := VInt 0; d_required := VBool true;
                                     d_name := Some VNone; d_options := Some VNone;
                                     d_default_value := None |}]);
            PrintedEntries (Some [{| d_id := VInt 101; d_container_name := VStr (py "Name");
                                     d_type := VInt 0; d_required := VBool true;
                                     d_name := Some VNone; d_options := Some VNone;
                                     d_default_value := None |}]);
            PrintedGenerated; PrintedResult (py "1")]
           (py "1")).
  vm_compute. reflexivity.
Defined.

(** A checkbox question, no JSON values. *)
Lemma checkbox_without_answer_raises_sample :
  ∃ l, @fill_form_entries test_library 3 [checkbox_field]
         (@fill_with_json_values test_library sample_draws VNone)
       = Some (l, Raise TypeError).
Proof.
  apply (@checkbox_without_answer_raises test_library
           (@fill_with_json_values test_library sample_draws VNone) VNone
           [] checkbox_field [] [] ([], [])
           (VList [VStr (py "Ham"); VStr (py "Olives")]) 3).
  - intros type_id entry_id options required entry_name. exists sample_draws. reflexivity.
  - reflexivity.
  - reflexivity.
  - reflexivity.
  - reflexivity.
  - left. reflexivity.
  - simpl. lia.
Defined.

(** A multiple-choice question, no JSON values. *)
Lemma random_fallback_picks_options_sample :
  ∃ l rs,
    @fill_form_entries test_library 3 [rgb_field]
      (@fill_with_json_values test_library sample_draws VNone) = Some (l, Ok rs) ∧
    Forall2 (λ e r, (has_default e = true ∧ r = e)
                    ∨ (∃ opts o, d_options e = Some (VList (map VStr opts)) ∧ o ∈ opts
                                 ∧ r = set_default e (VStr o))) [rgb_field] rs.
Proof.
  apply (@random_fallback_picks_options test_library
           (@fill_with_json_values test_library sample_draws VNone) VNone).
  - intros type_id entry_id options required entry_name. exists sample_draws. reflexivity.
  - constructor; [|constructor]. right. split; [reflexivity|]. split; [reflexivity|].
    split; [left; reflexivity|].
    exists [py "Red"; py "Green"; py "Blue"]. split; [reflexivity|].
    split; [discriminate|]. repeat constructor; discriminate.
  - simpl. lia.
Defined.

(** The array "[1, 2]" in a fence, with a space in front and a line feed
    behind. *)
Lemma fenced_content_unwrapped_sample :
  @call_gpt4 test_library ([32%N] ++ py "```json" ++ py "[1, 2]" ++ py "```" ++ [10%N])
  = @call_gpt4 test_library (py "[1, 2]").
Proof.
  apply (@fenced_content_unwrapped test_library [32%N] (py "[1, 2]") [10%N]).
  - repeat constructor.
  - repeat constructor.
  - vm_compute. reflexivity.
Defined.

(** Batches of two responses and three responses asked for: two calls, and
    the fourth response is dropped. *)
Lemma collected_responses_sample :
  ∃ all_responses,
    @collect_responses test_library 3 (λ _, py "[1, 2]") 0 [] 3
    = Some (@batch_lines test_library (λ _, py "[1, 2]") 2, Ok all_responses) ∧
    all_responses = take (Z.to_nat 3) (@batches test_library (λ _, py "[1, 2]") 2) ∧
    Z.of_nat (length all_responses) = 3%Z.
Proof.
  apply (@collected_responses test_library (λ _, py "[1, 2]") 3 1 3).
  - intros i _. eexists _, _. vm_compute. reflexivity.
  - vm_compute. reflexivity.
  - vm_compute. discriminate.
  - lia.
Defined.

(** A model that answers "oops" to every call: a thousand calls give
    nothing. *)
Lemma no_responses_no_end_sample :
  @collect_responses test_library 1000 (λ _, py "oops") 0 [] 1 = None.
Proof.
  apply (@no_responses_no_end test_library (λ _, py "oops") 1).
  - intros i. eexists. vm_compute. reflexivity.
  - lia.
Defined.

(** A form that holds a heading only. *)
Lemma request_body_without_entries_sample :
  ∃ log, @generate_request_body test_library count_generator read_only 1
           (sample_dump [heading_entry] 1) false
           (@fill_with_json_values test_library sample_draws VNone)
         = Some (log, Raised TypeError).
Proof.
  apply (@request_body_without_entries test_library count_generator read_only 1
           (sample_dump [heading_entry] 1) false
           (@fill_with_json_values test_library sample_draws VNone)
           [MsgNotIterable heading_entry] (Some [])).
  - vm_compute. reflexivity.
  - right. reflexivity.
  - lia.
Defined.

(** A page that is not found; a page that holds the literal; a request that
    times out. *)
Lemma get_fb_public_load_data_sample :
  @get_fb_public_load_data test_library (Response 404%Z (py "Not Found"))
  = ([MsgFetchError 404%Z], Ok VNone) ∧
  (([] : list msg) = [] ∧
   ∃ body g,
     Response 200%Z (py "<script>var FB_PUBLIC_LOAD_DATA_ = [null,[1,2]];</script>")
     = Response 200%Z body
     ∧ literal_found ALL_DATA_FIELDS body g
     ∧ @json_loads test_library g = Loaded (VList [VNone; VList [VInt 1; VInt 2]])) ∧
  (([] : list msg) = [] ∧
   ((RequestRaises = RequestRaises ∧ RequestException = RequestException)
    ∨ ∃ body g, RequestRaises = Response 200%Z body ∧ literal_found ALL_DATA_FIELDS body g
                ∧ @json_loads test_library g = LoadRaises RequestException)).
Proof.
  split; [|split].
  - apply (proj1 (@get_fb_public_load_data_spec test_library
                    (Response 404%Z (py "Not Found"))) 404%Z (py "Not Found") eq_refl).
    discriminate.
  - apply (proj1 (proj2 (@get_fb_public_load_data_spec test_library
             (Response 200%Z (py "<script>var FB_PUBLIC_LOAD_DATA_ = [null,[1,2]];</script>"))))
             [] (VList [VNone; VList [VInt 1; VInt 2]])).
    + vm_compute. reflexivity.
    + discriminate.
  - apply (proj2 (proj2 (@get_fb_public_load_data_spec test_library RequestRaises))
             [] RequestException).
    reflexivity.
Defined.
